(** * gpud event store and metrics syncer: a shallow embedding

    This development embeds [pkg/eventstore/database.go] (the SQLite-backed
    [Store]/[Bucket] implementation) and the metrics [Syncer] of gpud, and
    states the properties of their natural-language specification as
    theorems about the embedded code.

    Conventions
    - a Go [(T, error)] result is a [result T]; a Go pointer or slice that
      may be [nil] is an [option];
    - [map[string]string] is a [gmap string string] under an [option] (the
      [nil] map of Go is [None]);
    - [time.Duration] is a [Z] counting nanoseconds, a Unix timestamp is a [Z]
      (both are [int64] in Go; the program only compares them and divides a
      duration by five, so nothing wraps);
    - one SQLite table is the list of its rows in the order the engine scans
      them, an inserted row going last; the whole storage maps a physical
      table name to its rows.  The writable and the read-only handle
      ([dbRW], [dbRO]) point at the same storage, so they are one value here;
    - request contexts, latency metrics and logging are left out: every
      operation is described on a live context and a healthy engine. *)

From Stdlib Require Import ZArith Ascii String List Bool Lia Sorted.
From stdpp Require Import base option list gmap fin_maps strings sorting.

Local Open Scope Z_scope.
Local Open Scope string_scope.

(** ** Errors and results *)

Inductive error : Type :=
  | ErrJSON (detail : string)              (* an error of encoding/json *)
  | ErrInvalidJSON (data : string)         (* fmt.Errorf("invalid JSON: %q", data) *)
  | ErrWrap (msg : string) (cause : error) (* fmt.Errorf(msg + ": %w", cause) *)
  | ErrSQL (detail : string)               (* an error of the SQL engine *)
  | ErrNoRows                              (* sql.ErrNoRows *)
  | ErrNew (text : string).                (* errors.New(text) *)

Inductive result (A : Type) : Type :=
  | Ok (a : A)
  | Err (e : error).
Arguments Ok {A} a.
Arguments Err {A} e.

(** ** Time *)

Definition Duration := Z.
Definition time_Second : Duration := 1000000000.

(** [time.Time] as whole seconds since the epoch and the nanoseconds within
    that second. *)
Record Time : Type := mkTime { wall_sec : Z; wall_nsec : Z }.

Definition Unix (t : Time) : Z := wall_sec t.
Definition time_Unix (s n : Z) : Time := mkTime s n.

(** ** Events (api/v1) *)

Record SuggestedActions : Type := mkSuggestedActions {
  DeprecatedDescriptions : list string;
  RepairActions : list string
}.

Record Event : Type := mkEvent {
  EvTime : Time;
  Name : string;
  Type_ : string;
  Message : string;
  DeprecatedExtraInfo : option (gmap string string);
  DeprecatedSuggestedActions : option SuggestedActions
}.

(** Go map primitives on a possibly-nil map. *)
Definition map_len (m : option (gmap string string)) : nat :=
  match m with Some g => size g | None => O end.

Definition map_index (m : option (gmap string string)) (k : string) : option string :=
  match m with Some g => g !! k | None => None end.

Definition map_range (m : option (gmap string string)) : list (string * string) :=
  match m with Some g => map_to_list g | None => [] end.

(** [compareEvent]: length test, then every entry of A looked up in B. *)
Definition compareEvent (eventA eventB : Event) : bool :=
  if negb (Nat.eqb (map_len (DeprecatedExtraInfo eventA))
                   (map_len (DeprecatedExtraInfo eventB)))
  then false
  else forallb
         (fun kv : string * string =>
            match map_index (DeprecatedExtraInfo eventB) (fst kv) with
            | Some val => String.eqb val (snd kv)
            | None => false
            end)
         (map_range (DeprecatedExtraInfo eventA)).

(** ** Platform interfaces

    [encoding/json] and the Unicode case tables belong to the Go runtime,
    the statement parser and the sorter to SQLite.  The program only relies
    on their contracts, which are the members of the two classes below. *)

Inductive json (A : Type) : Type :=
  | Parsed (a : A)
  | Malformed (detail : string).
Arguments Parsed {A} a.
Arguments Malformed {A} detail.

Class GoLib : Type := {
  (* json.Marshal at the two payload types *)
  json_Marshal_map : gmap string string -> json string;
  json_Marshal_actions : SuggestedActions -> json string;
  (* json.Unmarshal at the two payload types *)
  json_Unmarshal_map : string -> json (gmap string string);
  json_Unmarshal_actions : string -> json SuggestedActions;
  (* strings.ToLower on input that is not pure ASCII *)
  unicode_ToLower : string -> string
}.

(** ** The persisted layout: one row per event *)

Record Row : Type := mkRow {
  timestamp : Z;                      (* INTEGER NOT NULL, unix seconds *)
  name : string;                      (* TEXT NOT NULL *)
  type : string;                      (* TEXT NOT NULL *)
  message : option string;            (* TEXT *)
  extra_info : option string;         (* TEXT *)
  suggested_actions : option string   (* TEXT *)
}.

Abbreviation DB := (gmap string (list Row)).

Class SqlEngine : Type := {
  (* whether the CREATE TABLE / CREATE INDEX statements written for this
     physical table name are accepted *)
  ddl_accepts : string -> bool;
  (* ORDER BY timestamp DESC; the order among equal timestamps is the
     engine's choice *)
  order_by_timestamp_desc : list Row -> list Row;
  order_by_timestamp_desc_perm :
    forall rows, order_by_timestamp_desc rows ≡ₚ rows;
  order_by_timestamp_desc_sorted :
    forall rows,
      StronglySorted (fun r1 r2 => timestamp r2 <= timestamp r1)
                     (order_by_timestamp_desc rows)
}.

(** ** strings helpers used by [defaultTableName] *)

(** [strings.ReplaceAll s old new] for a non-empty [old]: leftmost,
    non-overlapping occurrences.  [skip] counts the bytes of a match that
    are still to be dropped.  (The program passes the literals " ", "-"
    and "__" only; the empty pattern, which Go expands at every rune
    boundary, is not reachable and is left as the identity.) *)
Fixpoint replace_from (skip : nat) (old new s : string) : string :=
  match s with
  | EmptyString => EmptyString
  | String c rest =>
      match skip with
      | S k => replace_from k old new rest
      | O =>
          if String.prefix old s
          then new ++ replace_from (String.length old - 1) old new rest
          else String c (replace_from O old new rest)
      end
  end.

Definition ReplaceAll (s old new : string) : string :=
  match old with
  | EmptyString => s
  | _ => replace_from O old new s
  end.

Definition isASCII (c : ascii) : bool := (nat_of_ascii c <? 128)%nat.

Definition lowerByte (c : ascii) : ascii :=
  let n := nat_of_ascii c in
  if ((65 <=? n) && (n <=? 90))%nat then ascii_of_nat (n + 32) else c.

Fixpoint allASCII (s : string) : bool :=
  match s with
  | EmptyString => true
  | String c rest => isASCII c && allASCII rest
  end.

Fixpoint mapBytes (f : ascii -> ascii) (s : string) : string :=
  match s with
  | EmptyString => EmptyString
  | String c rest => String (f c) (mapBytes f rest)
  end.

(** [strings.ToLower]: the byte-wise fast path on ASCII input, the Unicode
    tables otherwise. *)
Definition ToLower {lib : GoLib} (s : string) : string :=
  if allASCII s then mapBytes lowerByte s else unicode_ToLower s.

Definition schemaVersion : string := "v0_4_0".

Definition defaultTableName {lib : GoLib} (componentName : string) : string :=
  let c := ReplaceAll componentName " " "_" in
  let c := ReplaceAll c "-" "_" in
  let c := ReplaceAll c "__" "_" in
  let c := ToLower c in
  "components_" ++ c ++ "_events_" ++ schemaVersion.

(** ** Record codec *)

(** [unmarshalIfValid], for the decoder [parse] of the target type.  The
    target is left untouched ([None]) in the three tolerant cases. *)
Definition unmarshalIfValid {T} (parse : string -> json T)
    (data : option string) : result (option T) :=
  match data with
  | None => Ok None
  | Some s =>
      if (String.length s =? 0)%nat || String.eqb s "null" then Ok None
      else if negb (String.prefix "{" s) then Err (ErrInvalidJSON s)
      else match parse s with
           | Parsed v => Ok (Some v)
           | Malformed d => Err (ErrJSON d)
           end
  end.

(** [scanRows]: one fetched row to an event. *)
Definition scanRows {lib : GoLib} (r : Row) : result Event :=
  let msg := match message r with Some s => s | None => "" end in
  match unmarshalIfValid json_Unmarshal_map (extra_info r) with
  | Err e => Err (ErrWrap "failed to unmarshal extra info" e)
  | Ok extraInfo =>
      match unmarshalIfValid json_Unmarshal_actions (suggested_actions r) with
      | Err e => Err (ErrWrap "failed to unmarshal suggested actions" e)
      | Ok suggestedActions =>
          Ok (mkEvent (time_Unix (timestamp r) 0) (name r) (type r) msg
                      extraInfo suggestedActions)
      end
  end.

(** [scanRow]: the same on the zero-or-one row of [QueryRowContext]; an
    empty result is [sql.ErrNoRows], a failed query is reported by [Scan]. *)
Definition scanRow {lib : GoLib} (row : result (option Row)) : result Event :=
  match row with
  | Err e => Err e
  | Ok None => Err ErrNoRows
  | Ok (Some r) => scanRows r
  end.

(** [errors.Is err sql.ErrNoRows] *)
Fixpoint errors_Is_ErrNoRows (e : error) : bool :=
  match e with
  | ErrNoRows => true
  | ErrWrap _ c => errors_Is_ErrNoRows c
  | _ => false
  end.

(** SQL [NULLIF(?, '')] *)
Definition NULLIF (s : string) : option string :=
  if String.eqb s "" then None else Some s.

(** ** Statements against the storage *)

Definition no_such_table (tableName : string) : error :=
  ErrSQL ("no such table: " ++ tableName).

(** One [column = ?] conjunct of a WHERE clause together with its bound
    parameter.  A NULL column compares equal to nothing. *)
Inductive cond : Type :=
  | EqTimestamp (v : Z)
  | EqName (v : string)
  | EqType (v : string)
  | EqMessage (v : string)
  | EqSuggestedActions (v : string).

Definition sql_text_eq (column : option string) (v : string) : bool :=
  match column with
  | Some s => String.eqb s v
  | None => false
  end.

Definition holds (r : Row) (c : cond) : bool :=
  match c with
  | EqTimestamp v => (timestamp r =? v)%Z
  | EqName v => String.eqb (name r) v
  | EqType v => String.eqb (type r) v
  | EqMessage v => sql_text_eq (message r) v
  | EqSuggestedActions v => sql_text_eq (suggested_actions r) v
  end.

(** [SELECT ... FROM tableName WHERE c1 AND c2 AND ...], no ORDER BY. *)
Definition query_where (db : DB) (tableName : string) (conds : list cond)
  : result (list Row) :=
  match db !! tableName with
  | None => Err (no_such_table tableName)
  | Some rows => Ok (List.filter (fun r => forallb (holds r) conds) rows)
  end.

(** [SELECT ... FROM tableName WHERE timestamp > ? ORDER BY timestamp DESC] *)
Definition query_since {engine : SqlEngine} (db : DB) (tableName : string) (since : Z)
  : result (list Row) :=
  match db !! tableName with
  | None => Err (no_such_table tableName)
  | Some rows =>
      Ok (order_by_timestamp_desc (List.filter (fun r => (since <? timestamp r)%Z) rows))
  end.

(** [SELECT ... FROM tableName ORDER BY timestamp DESC LIMIT 1] *)
Definition query_latest {engine : SqlEngine} (db : DB) (tableName : string)
  : result (option Row) :=
  match db !! tableName with
  | None => Err (no_such_table tableName)
  | Some rows => Ok (head (order_by_timestamp_desc rows))
  end.

(** ** Bucket operations *)

Definition insertEvent {lib : GoLib} (db : DB) (tableName : string) (ev : Event)
  : result DB :=
  let extraInfoJSON :=
    match DeprecatedExtraInfo ev with
    | Some m => json_Marshal_map m
    | None => Parsed ""
    end in
  match extraInfoJSON with
  | Malformed d => Err (ErrWrap "failed to marshal extra info" (ErrJSON d))
  | Parsed extraInfoJSON =>
      let suggestedActionsJSON :=
        match DeprecatedSuggestedActions ev with
        | Some sa => json_Marshal_actions sa
        | None => Parsed ""
        end in
      match suggestedActionsJSON with
      | Malformed d => Err (ErrWrap "failed to marshal suggested actions" (ErrJSON d))
      | Parsed suggestedActionsJSON =>
          match db !! tableName with
          | None => Err (no_such_table tableName)
          | Some rows =>
              Ok (<[tableName :=
                      (rows ++ [mkRow (Unix (EvTime ev)) (Name ev) (Type_ ev)
                                      (NULLIF (Message ev))
                                      (NULLIF extraInfoJSON)
                                      (NULLIF suggestedActionsJSON)])%list]> db)
          end
      end
  end.

(** The [for rows.Next()] loop of [findEvent]. *)
Fixpoint findEvent_loop {lib : GoLib} (rows : list Row) (ev : Event)
  : result (option Event) :=
  match rows with
  | [] => Ok None
  | r :: rest =>
      match scanRows r with
      | Err e => Err e
      | Ok event =>
          if compareEvent event ev then Ok (Some event)
          else findEvent_loop rest ev
      end
  end.

Definition findEvent {lib : GoLib} (db : DB) (tableName : string) (ev : Event)
  : result (option Event) :=
  let conds := [EqTimestamp (Unix (EvTime ev)); EqName (Name ev); EqType (Type_ ev)] in
  let conds :=
    if String.eqb (Message ev) "" then conds
    else (conds ++ [EqMessage (Message ev)])%list in
  let conds :=
    match DeprecatedSuggestedActions ev with
    | None => Ok conds
    | Some sa =>
        match json_Marshal_actions sa with
        | Malformed d => Err (ErrWrap "failed to marshal suggested actions" (ErrJSON d))
        | Parsed suggestedActionsJSON =>
            Ok (conds ++ [EqSuggestedActions suggestedActionsJSON])%list
        end
    end in
  match conds with
  | Err e => Err e
  | Ok conds =>
      match query_where db tableName conds with
      | Err e => if errors_Is_ErrNoRows e then Ok None else Err e
      | Ok rows => findEvent_loop rows ev
      end
  end.

(** The [for rows.Next()] loop of [getEvents]; [events] is the slice built
    so far. *)
Fixpoint getEvents_loop {lib : GoLib} (rows : list Row) (events : list Event)
  : result (list Event) :=
  match rows with
  | [] => Ok events
  | r :: rest =>
      match scanRows r with
      | Err e => Err e
      | Ok event => getEvents_loop rest (events ++ [event])%list
      end
  end.

Definition getEvents {lib : GoLib} {engine : SqlEngine} (db : DB) (tableName : string)
    (since : Time) : result (option (list Event)) :=
  match query_since db tableName (Unix since) with
  | Err e => if errors_Is_ErrNoRows e then Ok None else Err e
  | Ok rows =>
      match getEvents_loop rows [] with
      | Err e => Err e
      | Ok events =>
          if (length events =? 0)%nat then Ok None else Ok (Some events)
      end
  end.

Definition lastEvent {lib : GoLib} {engine : SqlEngine} (db : DB) (tableName : string)
  : result (option Event) :=
  match scanRow (query_latest db tableName) with
  | Err e => if errors_Is_ErrNoRows e then Ok None else Err e
  | Ok foundEvent => Ok (Some foundEvent)
  end.

(** [DELETE FROM tableName WHERE timestamp < ?]: the storage afterwards and
    the number of rows affected. *)
Definition purgeEvents (db : DB) (tableName : string) (beforeTimestamp : Z)
  : result (DB * Z) :=
  match db !! tableName with
  | None => Err (no_such_table tableName)
  | Some rows =>
      let kept := List.filter (fun r => negb (timestamp r <? beforeTimestamp)%Z) rows in
      let affected :=
        Z.of_nat (length (List.filter (fun r => (timestamp r <? beforeTimestamp)%Z) rows)) in
      Ok (<[tableName := kept]> db, affected)
  end.

(** ** Store and bucket handles *)

Record database : Type := mkDatabase { retention : Duration }.

Record table : Type := mkTable {
  t_retention : Duration;
  t_purgeInterval : Duration;
  t_table : string
}.

(** What exists outside the handles: the storage and the purge tasks that
    have been started ([go t.runPurge()]). *)
Record Runtime : Type := mkRuntime {
  storage : DB;
  purgers : list table
}.

(** Modelled from the spec: the option type of the event store (its file is
    not part of the sources).  The spec names one recognised option,
    [disablePurge], a boolean that disables the bucket's own retention loop. *)
Record Op : Type := mkOp { disablePurge : bool }.

Definition OpOption : Type := Op -> Op.

Definition WithDisablePurge : OpOption := fun _ => mkOp true.

Definition applyOpts (op : Op) (opts : list OpOption) : result Op :=
  Ok (fold_left (fun o opt => opt o) opts op).

Definition New (retention : Duration) : database := mkDatabase retention.

(** [CREATE TABLE IF NOT EXISTS] and the three [CREATE INDEX IF NOT EXISTS],
    in one transaction: all or nothing.  Indexes hold no data of their own.
    The statements are written by splicing the table name in as text; the
    model is that of a name the engine reads as one identifier, accepted or
    refused as a whole.  A name that carries statements of its own is
    outside it. *)
Definition createTable {engine : SqlEngine} (db : DB) (tableName : string) : result DB :=
  if ddl_accepts tableName then
    match db !! tableName with
    | Some _ => Ok db
    | None => Ok (<[tableName := []]> db)
    end
  else Err (ErrSQL ("syntax error in table name: " ++ tableName)).

Definition newTable {lib : GoLib} {engine : SqlEngine} (w : Runtime) (name : string)
    (retention purgeInterval : Duration) : Runtime * result table :=
  let tableName := defaultTableName name in
  match createTable (storage w) tableName with
  | Err e => (w, Err e)
  | Ok db =>
      let t := mkTable retention purgeInterval tableName in
      if (time_Second <? retention)%Z
      then (mkRuntime db (t :: purgers w), Ok t)
      else (mkRuntime db (purgers w), Ok t)
  end.

(** [(d *database) Bucket]: the receiver is a pointer, so the store after
    the call is part of the result. *)
Definition Bucket {lib : GoLib} {engine : SqlEngine} (d : database) (w : Runtime)
    (name : string) (opts : list OpOption)
  : database * Runtime * result table :=
  match applyOpts (mkOp false) opts with
  | Err e => (d, w, Err e)
  | Ok op =>
      let purgeInterval := (retention d ÷ 5)%Z in
      let purgeInterval :=
        if (purgeInterval <? time_Second)%Z then time_Second else purgeInterval in
      let '(d, purgeInterval) :=
        if disablePurge op then (mkDatabase 0, 0) else (d, purgeInterval) in
      let '(w, r) := newTable w name (retention d) purgeInterval in
      (d, w, r)
  end.

Definition LoadBucketWithNoPurge {lib : GoLib} {engine : SqlEngine} (d : database)
    (w : Runtime) (name : string) : database * Runtime * result table :=
  let '(w, r) := newTable w name 0 0 in (d, w, r).

(** Bucket methods: each forwards to the function on the handle's table. *)
Definition table_Name (t : table) : string := t_table t.
Definition table_Insert {lib : GoLib} (t : table) (db : DB) (ev : Event) :=
  insertEvent db (t_table t) ev.
Definition table_Find {lib : GoLib} (t : table) (db : DB) (ev : Event) :=
  findEvent db (t_table t) ev.
Definition table_Get {lib : GoLib} {engine : SqlEngine} (t : table) (db : DB) (since : Time) :=
  getEvents db (t_table t) since.
Definition table_Latest {lib : GoLib} {engine : SqlEngine} (t : table) (db : DB) :=
  lastEvent db (t_table t).
Definition table_Purge (t : table) (db : DB) (beforeTimestamp : Z) :=
  purgeEvents db (t_table t) beforeTimestamp.

(** ** The purge loop *)

(** [t.Add(d)] of the time package: the duration is split with Go's
    truncating division and the nanoseconds are brought back into
    [0, 1e9). *)
Definition time_Add (t : Time) (d : Duration) : Time :=
  let dsec := (d ÷ time_Second)%Z in
  let nsec := (wall_nsec t + Z.rem d time_Second)%Z in
  if (time_Second <=? nsec)%Z then mkTime (wall_sec t + dsec + 1) (nsec - time_Second)
  else if (nsec <? 0)%Z then mkTime (wall_sec t + dsec - 1) (nsec + time_Second)
  else mkTime (wall_sec t + dsec) nsec.

(** One turn of the [for] loop of [runPurge], entered when the timer fires
    at wall-clock time [now]: a failed purge is logged and the loop goes on. *)
Definition runPurge_turn (t : table) (db : DB) (now : Time) : DB :=
  match table_Purge t db (Unix (time_Add now (- t_retention t))) with
  | Ok (db', _) => db'
  | Err _ => db
  end.

(** [runPurge] until the bucket is closed: [turns] are the times at which
    the timer fired before [rootCtx] was done. *)
Definition runPurge (t : table) (turns : list Time) (db : DB) : DB :=
  fold_left (runPurge_turn t) turns db.

(** ** Metrics syncer *)

Module Syncer.

(** A metric sample.  [Value] is a [float64] in Go; the syncer never
    looks inside a sample, so its type is left open. *)
Record Metric (V : Type) : Type := mkMetric {
  UnixMilliseconds : Z;
  Component : string;
  Name : string;
  Label : string;
  Value : V
}.
Arguments mkMetric {V}.

(** The [Scraper] and [Store] interfaces of pkg/metrics, over the state
    [S] / [T] of the implementation; [M] is the metric type. *)
Class Scraper (M S : Type) : Type := {
  Scrape : S -> S * result (list M)
}.

Class Store (M T : Type) : Type := {
  Store_Record : T -> list M -> T * option error
}.

(** Calls made through the two interfaces, oldest first. *)
Inductive call (M : Type) : Type :=
  | CallScrape
  | CallRecord (ms : list M).
Arguments CallScrape {M}.
Arguments CallRecord {M} ms.

Record syncer (M S T : Type) : Type := mkSyncer {
  scraper : S;
  store : T;
  calls : list (call M)
}.
Arguments mkSyncer {M S T}.
Arguments scraper {M S T}.
Arguments store {M S T}.
Arguments calls {M S T}.

(** Modelled from the spec: [sync] of the syncer, whose source file is not
    part of the sources (only its test is).  "Scrape once; on scrape error,
    return the error unmodified without touching the store.  On success,
    record all scraped metrics in one call; on store error, return it
    unmodified." *)
Definition sync {M S T} `{Scraper M S} `{Store M T} (s : syncer M S T)
  : syncer M S T * option error :=
  let '(sc, scraped) := Scrape (scraper s) in
  let s := mkSyncer sc (store s) (calls s ++ [CallScrape])%list in
  match scraped with
  | Err e => (s, Some e)
  | Ok ms =>
      let '(st, err) := Store_Record (store s) ms in
      (mkSyncer (scraper s) st (calls s ++ [CallRecord ms])%list, err)
  end.

Definition isScrape {M} (c : call M) : bool :=
  match c with CallScrape => true | CallRecord _ => false end.

Definition isRecord {M} (c : call M) : bool :=
  match c with CallScrape => false | CallRecord _ => true end.

(** The mocks of syncer_test.go. *)
Record mockScraper (M : Type) : Type := mkMockScraper {
  mock_metrics : list M;
  mock_err : option error;
  scrapes : Z
}.
Arguments mkMockScraper {M}.
Arguments mock_metrics {M}.
Arguments mock_err {M}.
Arguments scrapes {M}.

Record mockStore (M : Type) : Type := mkMockStore {
  records : list M;
  recordErr : option error
}.
Arguments mkMockStore {M}.
Arguments records {M}.
Arguments recordErr {M}.

#[global] Instance mockScraper_Scraper {M} : Scraper M (mockScraper M) := {
  Scrape m :=
    let m := mkMockScraper (mock_metrics m) (mock_err m) (scrapes m + 1) in
    match mock_err m with
    | Some e => (m, Err e)
    | None => (m, Ok (mock_metrics m))
    end
}.

#[global] Instance mockStore_Store {M} : Store M (mockStore M) := {
  Store_Record m ms :=
    match recordErr m with
    | Some e => (m, Some e)
    | None => (mkMockStore (records m ++ ms)%list (recordErr m), None)
    end
}.

Definition testMetrics : list (Metric Z) :=
  [ mkMetric 1700000000000 "test-component" "metric1" "" 42;
    mkMetric 1700000000000 "test-component" "metric2" "gpu0" 123 ].

End Syncer.

(** ** A producer: the infiniband component *)

(** [errors.Is]: the error or one of the errors it wraps is the target.
    Go compares a sentinel by identity; here errors are values, told apart
    by constructor and text, so two separately made errors with the same
    text, distinct in Go, are one and the same. *)
Fixpoint error_eqb (a b : error) : bool :=
  match a, b with
  | ErrJSON x, ErrJSON y => String.eqb x y
  | ErrInvalidJSON x, ErrInvalidJSON y => String.eqb x y
  | ErrWrap m c, ErrWrap m' c' => String.eqb m m' && error_eqb c c'
  | ErrSQL x, ErrSQL y => String.eqb x y
  | ErrNoRows, ErrNoRows => true
  | ErrNew x, ErrNew y => String.eqb x y
  | _, _ => false
  end.

Fixpoint errors_Is (e target : error) : bool :=
  error_eqb e target ||
  match e with
  | ErrWrap _ c => errors_Is c target
  | _ => false
  end.

Module Infiniband.

(** What the component takes from api/v1 and from the ibstat query package,
    whose declarations are not among the sources: the constants by name,
    the port check as a function, and the text of an error ([err.Error()],
    which is also what [%v] prints). *)
Class Deps : Type := {
  IbstatOutput : Type;
  CheckPortsAndRate : IbstatOutput -> Z -> Z -> option error;
  ErrNoIbstatCommand : error;
  error_Error : error -> string;
  HealthStateTypeHealthy : string;
  HealthStateTypeUnhealthy : string;
  EventTypeWarning : string;
  RepairActionTypeHardwareInspection : string;
  (** [json.Marshal] of a [*Data], as text: only the exported field, the
      ibstat output, is encoded; a failure leaves the empty text. *)
  json_Marshal_Data : option IbstatOutput -> string
}.

Record ExpectedPortStates : Type := mkExpectedPortStates {
  AtLeastPorts : Z;
  AtLeastRate : Z
}.

Record NVML : Type := mkNVML { NVMLExists : bool }.

Section Component.
Context {deps : Deps}.

Record Data : Type := mkData {
  Data_IbstatOutput : option IbstatOutput;
  ts : Time;
  err : option error;
  health : string;
  reason : string
}.

Record component : Type := mkComponent {
  nvmlInstance : option NVML;
  IbstatCommand : string;
  eventBucket : option table;
  getIbstatOutputFunc : option (list string -> option IbstatOutput * option error);
  getThresholdsFunc : unit -> ExpectedPortStates;
  lastData : option Data
}.

Definition reasonMissingIbstatOutput : string := "missing ibstat output (skipped evaluation)".
Definition reasonMissingEventBucket : string := "missing event storage (skipped evaluation)".
Definition reasonThresholdNotSetSkipped : string := "ports or rate threshold not set, skipping".
Definition reasonNoIbIssueFound : string := "no infiniband issue found (in ibstat)".

Definition evaluateIbstatOutputAgainstThresholds
    (o : IbstatOutput) (thresholds : ExpectedPortStates) : string * string :=
  if (AtLeastPorts thresholds <=? 0)%Z && (AtLeastRate thresholds <=? 0)%Z
  then (reasonThresholdNotSetSkipped, HealthStateTypeHealthy)
  else
    match CheckPortsAndRate o (AtLeastPorts thresholds) (AtLeastRate thresholds) with
    | Some e => (error_Error e, HealthStateTypeUnhealthy)
    | None => (reasonNoIbIssueFound, HealthStateTypeHealthy)
    end.

(** [Events]: the bucket's [Get], or nil without a bucket. *)
Definition Events {lib : GoLib} {engine : SqlEngine}
    (c : component) (db : DB) (since : Time) : result (option (list Event)) :=
  match eventBucket c with
  | None => Ok None
  | Some bucket => table_Get bucket db since
  end.

Definition verdict (d : Data) (r h : string) : Data :=
  mkData (Data_IbstatOutput d) (ts d) (err d) h r.

(** The deferred assignment [c.lastData = d] at every return of [Check]. *)
Definition returns (c : component) (db : DB) (d : Data) : component * DB * Data :=
  (mkComponent (nvmlInstance c) (IbstatCommand c) (eventBucket c)
               (getIbstatOutputFunc c) (getThresholdsFunc c) (Some d),
   db, d).

(** The event that [Check] persists for an unhealthy result. *)
Definition ibstatActions : SuggestedActions :=
  mkSuggestedActions
    ["potential infiniband switch/hardware issue needs immediate attention"]
    [RepairActionTypeHardwareInspection].

Definition ibstatEvent (d : Data) : Event :=
  mkEvent (ts d) "ibstat" EventTypeWarning (reason d) None (Some ibstatActions).

(** [Check] at wall-clock time [now]. *)
Definition Check {lib : GoLib} (c : component) (now : Time) (db : DB)
  : component * DB * Data :=
  let d := mkData None now None "" "" in
  match nvmlInstance c with
  | None => returns c db (verdict d "NVIDIA NVML instance is nil" HealthStateTypeHealthy)
  | Some nvml =>
  if negb (NVMLExists nvml)
  then returns c db (verdict d "NVIDIA NVML is not loaded" HealthStateTypeHealthy)
  else
  match getIbstatOutputFunc c with
  | None => returns c db (verdict d "ibstat checker not found" HealthStateTypeHealthy)
  | Some getIbstatOutput =>
  let '(out, e) := getIbstatOutput [IbstatCommand c] in
  let d := mkData out now e "" "" in
  match e with
  | Some e =>
      if errors_Is e ErrNoIbstatCommand
      then returns c db (verdict d "ibstat command not found" HealthStateTypeHealthy)
      else returns c db (verdict d ("ibstat command failed: " ++ error_Error e)
                                 HealthStateTypeUnhealthy)
  | None =>
  match out with
  | None => returns c db (verdict d reasonMissingIbstatOutput HealthStateTypeHealthy)
  | Some o =>
  match eventBucket c with
  | None => returns c db (verdict d reasonMissingEventBucket HealthStateTypeHealthy)
  | Some bucket =>
  let thresholds := getThresholdsFunc c tt in
  let '(r, h) := evaluateIbstatOutputAgainstThresholds o thresholds in
  let d := verdict d r h in
  if String.eqb (health d) HealthStateTypeHealthy then returns c db d
  else
    let ev := ibstatEvent d in
    match table_Find bucket db ev with
    | Err e =>
        returns c db (verdict d ("failed to find ibstat event: " ++ error_Error e)
                              HealthStateTypeUnhealthy)
    | Ok (Some _) => returns c db d
    | Ok None =>
        match table_Insert bucket db ev with
        | Err e =>
            returns c db (verdict d ("failed to insert ibstat event: " ++ error_Error e)
                                  HealthStateTypeUnhealthy)
        | Ok db' => returns c db' d
        end
    end
  end end end end end.

(** The component's name and the health state of api/v1. *)
Definition ComponentName : string := "accelerator-nvidia-infiniband".

Record HealthState : Type := mkHealthState {
  State_Name : string;
  State_Reason : string;
  State_Error : string;
  State_Health : string;
  State_DeprecatedExtraInfo : option (gmap string string)
}.

(** The methods of [*Data] behind [LastHealthStates]; the receiver may be
    nil. *)
Definition getError (d : option Data) : string :=
  match d with
  | None => ""
  | Some d => match err d with None => "" | Some e => error_Error e end
  end.

Definition getLastHealthStates (d : option Data) : list HealthState :=
  match d with
  | None => [mkHealthState ComponentName "no data yet" "" HealthStateTypeHealthy None]
  | Some data =>
      let b := json_Marshal_Data (Data_IbstatOutput data) in
      [mkHealthState ComponentName (reason data) (getError d) (health data)
         (Some (<["encoding" := "json"]> {["data" := b]}))]
  end.

Definition LastHealthStates (c : component) : list HealthState :=
  getLastHealthStates (lastData c).

End Component.
End Infiniband.

(** ** Vocabulary of the statements

    Predicates that say, in the words of the specification, what the
    theorems below relate the code to. *)

(** The ExtraInfo equality rule in the words of the spec: same number of
    keys, and every key of A exists in B with an identical value. *)
Definition extraInfoEqual (a b : Event) : Prop :=
  map_len (DeprecatedExtraInfo a) = map_len (DeprecatedExtraInfo b) /\
  forall k v, map_index (DeprecatedExtraInfo a) k = Some v ->
              map_index (DeprecatedExtraInfo b) k = Some v.

(** The entries of a possibly-nil map, as a map. *)
Definition entries (m : option (gmap string string)) : gmap string string :=
  match m with Some g => g | None => ∅ end.

(** The probe's SuggestedActions can be serialized (or are nil). *)
Definition serializable {lib : GoLib} (probe : Event) : Prop :=
  forall sa, DeprecatedSuggestedActions probe = Some sa ->
             exists js, json_Marshal_actions sa = Parsed js.

(** Both payloads of the event can be serialized (or are nil). *)
Definition marshalable {lib : GoLib} (ev : Event) : Prop :=
  serializable ev /\
  forall m, DeprecatedExtraInfo ev = Some m ->
            exists js, json_Marshal_map m = Parsed js.

(** The row passes the SQL predicate that [Find] builds for the probe. *)
Definition candidate {lib : GoLib} (probe : Event) (r : Row) : Prop :=
  timestamp r = Unix (EvTime probe) /\
  name r = Name probe /\
  type r = Type_ probe /\
  (Message probe <> "" -> message r = Some (Message probe)) /\
  (forall sa, DeprecatedSuggestedActions probe = Some sa ->
              exists js, json_Marshal_actions sa = Parsed js /\
                         suggested_actions r = Some js).

(** The row holds a stored event that is no match for the probe. *)
Definition passed_over {lib : GoLib} (probe : Event) (r : Row) : Prop :=
  candidate probe r ->
  exists e, scanRows r = Ok e /\ ~ extraInfoEqual e probe.

(** The text of a wrapped decoding error. *)
Definition unmarshal_failure (e : error) : Prop :=
  exists cause,
    e = ErrWrap "failed to unmarshal extra info" cause \/
    e = ErrWrap "failed to unmarshal suggested actions" cause.

Definition newest_first (e1 e2 : Event) : Prop :=
  Unix (EvTime e2) <= Unix (EvTime e1).

Definition strictly_newest_first (e1 e2 : Event) : Prop :=
  Unix (EvTime e2) < Unix (EvTime e1).

(** The row is not selected, or it decodes to an event that
    [compareEvent] rejects. *)
Definition skipped {lib : GoLib} (p : Row -> bool) (probe : Event) (r : Row) : Prop :=
  p r = true -> exists e, scanRows r = Ok e /\ compareEvent e probe = false.

(** ** A runtime and an engine for closed examples

    [stubLib] knows the JSON documents that the examples store; [stubEngine]
    accepts plain identifiers as table names and sorts with a stable merge
    sort. *)

Definition dq : string := String "034"%char EmptyString.

Definition doc_empty : string := "{}".
Definition doc_a_b : string := "{" ++ dq ++ "a" ++ dq ++ ":" ++ dq ++ "b" ++ dq ++ "}".
Definition doc_broken : string := "{invalid_json".

Definition map_a_b : gmap string string := {[ "a" := "b" ]}.
Definition map_a_b_c_d : gmap string string := <[ "c" := "d" ]> {[ "a" := "b" ]}.

Definition stub_Marshal_map (m : gmap string string) : json string :=
  if decide (m = ∅) then Parsed doc_empty
  else if decide (m = map_a_b) then Parsed doc_a_b
  else Malformed "stub: document not known".

Definition stub_Unmarshal_map (s : string) : json (gmap string string) :=
  if String.eqb s doc_empty then Parsed ∅
  else if String.eqb s doc_a_b then Parsed map_a_b
  else Malformed "invalid character".

Definition stub_Marshal_actions (sa : SuggestedActions) : json string :=
  match DeprecatedDescriptions sa, RepairActions sa with
  | [], [] => Parsed doc_empty
  | _, _ => Malformed "stub: document not known"
  end.

Definition stub_Unmarshal_actions (s : string) : json SuggestedActions :=
  if String.eqb s doc_empty then Parsed (mkSuggestedActions [] [])
  else Malformed "invalid character".

Definition stubLib : GoLib := {|
  json_Marshal_map := stub_Marshal_map;
  json_Marshal_actions := stub_Marshal_actions;
  json_Unmarshal_map := stub_Unmarshal_map;
  json_Unmarshal_actions := stub_Unmarshal_actions;
  unicode_ToLower := fun s => s
|}.

Definition identByte (c : ascii) : bool :=
  let n := nat_of_ascii c in
  (((97 <=? n) && (n <=? 122)) || ((65 <=? n) && (n <=? 90)) ||
   ((48 <=? n) && (n <=? 57)) || (n =? 95))%nat.

Fixpoint plainIdent (s : string) : bool :=
  match s with
  | EmptyString => true
  | String c rest => identByte c && plainIdent rest
  end.

Definition newer_first (r1 r2 : Row) : Prop := timestamp r2 <= timestamp r1.

#[local] Instance newer_first_dec r1 r2 : Decision (newer_first r1 r2) :=
  Z_le_dec (timestamp r2) (timestamp r1).

#[local] Instance newer_first_trans : Transitive newer_first.
Proof. unfold newer_first. intros x y z ? ?. lia. Qed.

#[local] Instance newer_first_total : Total newer_first.
Proof. unfold newer_first. intros x y. lia. Qed.

Definition stubEngine : SqlEngine := {|
  ddl_accepts := plainIdent;
  order_by_timestamp_desc := merge_sort newer_first;
  order_by_timestamp_desc_perm := merge_sort_Permutation newer_first;
  order_by_timestamp_desc_sorted := StronglySorted_merge_sort newer_first
|}.

(** ** Further vocabulary *)

(** The JSON library reads back what it wrote for the payloads of this
    event: the documents are objects and parse to the value serialized. *)
Definition round_trips {lib : GoLib} (ev : Event) : Prop :=
  (forall m, DeprecatedExtraInfo ev = Some m ->
     exists js, json_Marshal_map m = Parsed js /\
                String.prefix "{" js = true /\
                json_Unmarshal_map js = Parsed m) /\
  (forall sa, DeprecatedSuggestedActions ev = Some sa ->
     exists js, json_Marshal_actions sa = Parsed js /\
                String.prefix "{" js = true /\
                json_Unmarshal_actions js = Parsed sa).

(** What a stored event looks like when read back: the time is cut to
    whole seconds. *)
Definition as_stored (ev : Event) : Event :=
  mkEvent (time_Unix (Unix (EvTime ev)) 0) (Name ev) (Type_ ev) (Message ev)
          (DeprecatedExtraInfo ev) (DeprecatedSuggestedActions ev).

(** A wall-clock reading: nanoseconds within the second. *)
Definition wall_clock (t : Time) : Prop := 0 <= wall_nsec t < time_Second.

(** The retention horizon of a purge turn at [now]: the unix second of the
    instant [t_retention] before [now]. *)
Definition horizon (t : table) (now : Time) : Z :=
  (wall_sec now * time_Second + wall_nsec now - t_retention t) / time_Second.

(** Logical names as the table-name derivation sees them: space and hyphen
    are underscores, ASCII letters are lower case. *)
Definition normalizeByte (c : ascii) : ascii :=
  if Ascii.eqb c " " || Ascii.eqb c "-" then "_"%char else lowerByte c.

Definition normalizeName (s : string) : string := mapBytes normalizeByte s.

(** Letters, digits, space, hyphen and underscore. *)
Definition wordByte (c : ascii) : bool :=
  identByte c || Ascii.eqb c " " || Ascii.eqb c "-".

Fixpoint wordName (s : string) : bool :=
  match s with
  | EmptyString => true
  | String c rest => wordByte c && wordName rest
  end.

(** Lower-case letters, digits and underscore. *)
Definition tableByte (c : ascii) : bool :=
  let n := nat_of_ascii c in
  (((97 <=? n) && (n <=? 122)) || ((48 <=? n) && (n <=? 57)) || (n =? 95))%nat.

Fixpoint tableIdent (s : string) : bool :=
  match s with
  | EmptyString => true
  | String c rest => tableByte c && tableIdent rest
  end.

(** ** Fixtures of the closed examples *)

Definition withExtraInfo (m : option (gmap string string)) : Event :=
  mkEvent (time_Unix 0 0) "" "" "" m None.

Definition row_at (ts : Z) (n : string) : Row := mkRow ts n "Info" None None None.

Definition row_extra (ts : Z) (extra : option string) : Row :=
  mkRow ts "gpu" "Warning" None extra None.

Definition event_extra (t : Time) (extra : option (gmap string string)) : Event :=
  mkEvent t "gpu" "Warning" "" extra None.

Definition same_second_a : Event := mkEvent (mkTime 5 100) "gpu" "Warning" "first" None None.
Definition same_second_b : Event := mkEvent (mkTime 5 900) "gpu" "Warning" "second" None None.

Definition same_second_rows : list Row :=
  [ mkRow 5 "gpu" "Warning" (Some "first") None None;
    mkRow 5 "gpu" "Warning" (Some "second") None None ].

Definition broken_rows : list Row :=
  [ mkRow 10 "test" "Warning" None (Some doc_a_b) None;
    mkRow 11 "test" "Warning" None (Some doc_broken) (Some doc_broken) ].

Definition second : Duration := time_Second.

Definition scrapeFails : Syncer.syncer (Syncer.Metric Z)
                           (Syncer.mockScraper (Syncer.Metric Z))
                           (Syncer.mockStore (Syncer.Metric Z)) :=
  Syncer.mkSyncer (Syncer.mkMockScraper [] (Some (ErrNew "scrape error")) 0)
                  (Syncer.mkMockStore [] None) [].

Definition recordFails : Syncer.syncer (Syncer.Metric Z)
                           (Syncer.mockScraper (Syncer.Metric Z))
                           (Syncer.mockStore (Syncer.Metric Z)) :=
  Syncer.mkSyncer (Syncer.mkMockScraper Syncer.testMetrics None 0)
                  (Syncer.mkMockStore [] (Some (ErrNew "store error"))) [].

Definition syncWorks : Syncer.syncer (Syncer.Metric Z)
                         (Syncer.mockScraper (Syncer.Metric Z))
                         (Syncer.mockStore (Syncer.Metric Z)) :=
  Syncer.mkSyncer (Syncer.mkMockScraper Syncer.testMetrics None 0)
                  (Syncer.mkMockStore [] None) [].

Definition ten_second_bucket : table := mkTable (10 * second) (2 * second) "t".

(** Stand-ins for the declarations the infiniband component imports, and a
    JSON stand-in that knows the document of its suggested actions. *)
Definition stubDeps : Infiniband.Deps := {|
  Infiniband.IbstatOutput := Z;
  Infiniband.CheckPortsAndRate :=
    fun portsUp atLeastPorts _ =>
      if (portsUp <? atLeastPorts)%Z then Some (ErrNew "not enough ports up") else None;
  Infiniband.ErrNoIbstatCommand := ErrNew "ibstat not found";
  Infiniband.error_Error := fun e => match e with ErrNew text => text | _ => "error" end;
  Infiniband.HealthStateTypeHealthy := "Healthy";
  Infiniband.HealthStateTypeUnhealthy := "Unhealthy";
  Infiniband.EventTypeWarning := "Warning";
  Infiniband.RepairActionTypeHardwareInspection := "HARDWARE_INSPECTION";
  Infiniband.json_Marshal_Data := fun _ => "{}"
|}.

Definition doc_actions : string := "{actions}".

Definition actionsLib : GoLib := {|
  json_Marshal_map := stub_Marshal_map;
  json_Marshal_actions := fun _ => Parsed doc_actions;
  json_Unmarshal_map := stub_Unmarshal_map;
  json_Unmarshal_actions :=
    fun s => if String.eqb s doc_actions
             then Parsed (@Infiniband.ibstatActions stubDeps)
             else Malformed "invalid character";
  unicode_ToLower := fun s => s
|}.

Definition onePortUp : @Infiniband.component stubDeps :=
  Infiniband.mkComponent
    (Some (Infiniband.mkNVML true)) "ibstat" (Some (mkTable 0 0 "ib"))
    (Some (fun _ => (Some 1 : option (@Infiniband.IbstatOutput stubDeps), None)))
    (fun _ => Infiniband.mkExpectedPortStates 2 0)
    None.

Definition noExpectation : @Infiniband.component stubDeps :=
  Infiniband.mkComponent
    (Some (Infiniband.mkNVML true)) "ibstat" (Some (mkTable 0 0 "ib"))
    (Some (fun _ => (Some 0 : option (@Infiniband.IbstatOutput stubDeps), None)))
    (fun _ => Infiniband.mkExpectedPortStates 0 0)
    None.

(** * Properties *)

(** ** ExtraInfo equality *)

Lemma map_len_entries m : map_len m = size (entries m).
Proof. destruct m; simpl; [done | by rewrite map_size_empty]. Qed.

Lemma map_index_entries m k : map_index m k = entries m !! k.
Proof. destruct m; simpl; [done | by rewrite lookup_empty]. Qed.

Lemma compareEvent_spec a b : compareEvent a b = true <-> extraInfoEqual a b.
Proof.
  unfold compareEvent, extraInfoEqual.
  destruct (Nat.eqb_spec (map_len (DeprecatedExtraInfo a))
                         (map_len (DeprecatedExtraInfo b))) as [Hl | Hl]; simpl.
  - rewrite forallb_forall. split.
    + intros H. split; [done |]. intros k v Hk.
      assert (Hin : In (k, v) (map_range (DeprecatedExtraInfo a))).
      { apply list_elem_of_In. destruct (DeprecatedExtraInfo a); simpl in *; [| done].
        by apply elem_of_map_to_list. }
      specialize (H _ Hin). simpl in H.
      destruct (map_index (DeprecatedExtraInfo b) k) as [val |]; [| done].
      apply String.eqb_eq in H. by subst.
    + intros [_ H] [k v] Hin. simpl.
      assert (Hk : map_index (DeprecatedExtraInfo a) k = Some v).
      { apply list_elem_of_In in Hin. destruct (DeprecatedExtraInfo a); simpl in *.
        - by apply elem_of_map_to_list in Hin.
        - by apply elem_of_nil in Hin. }
      rewrite (H _ _ Hk). apply String.eqb_refl.
  - split; [done | by intros [? _]].
Qed.

Lemma extraInfoEqual_entries a b :
  extraInfoEqual a b <->
  entries (DeprecatedExtraInfo a) = entries (DeprecatedExtraInfo b).
Proof.
  unfold extraInfoEqual. rewrite !map_len_entries. split.
  - intros [Hs Hsub]. apply map_subseteq_size_eq; [| lia].
    apply map_subseteq_spec. intros k v Hk.
    rewrite <- map_index_entries in *. by apply Hsub.
  - intros Heq. split; [by rewrite Heq |].
    intros k v. by rewrite !map_index_entries, Heq.
Qed.

Lemma compareEvent_entries a b :
  compareEvent a b = true <->
  entries (DeprecatedExtraInfo a) = entries (DeprecatedExtraInfo b).
Proof. by rewrite compareEvent_spec, extraInfoEqual_entries. Qed.

Lemma compareEvent_sym a b : compareEvent a b = compareEvent b a.
Proof.
  apply eq_true_iff_eq. rewrite !compareEvent_entries. split; congruence.
Qed.

Lemma compareEvent_false_entries a b :
  entries (DeprecatedExtraInfo a) <> entries (DeprecatedExtraInfo b) ->
  compareEvent a b = false.
Proof.
  intros Hne. apply not_true_is_false. by rewrite compareEvent_entries.
Qed.

Lemma map_a_b_not_empty : map_a_b <> ∅.
Proof.
  intros H. apply (f_equal (fun m : gmap string string => m !! "a")) in H.
  unfold map_a_b in H. by rewrite lookup_singleton_eq, lookup_empty in H.
Qed.

Lemma map_a_b_not_larger : map_a_b <> map_a_b_c_d.
Proof.
  intros H. apply (f_equal (fun m : gmap string string => m !! "c")) in H.
  unfold map_a_b, map_a_b_c_d in H.
  rewrite lookup_insert_eq, lookup_singleton_ne in H; done.
Qed.

(** C2. The ExtraInfo equality that [Find] applies ([compareEvent]) holds
    exactly when the two maps have the same number of keys and every key of
    A is in B with the same value.  It is symmetric; an event without
    extra-info keys matches exactly the events without extra-info keys; and
    an event with ExtraInfo {a:b} matches neither an event with ExtraInfo {}
    (or nil) nor one with ExtraInfo {a:b, c:d}, whichever of the two is the
    probe. *)
Theorem compareEvent_extra_info_rule (a b : Event) :
  (compareEvent a b = true <->
     map_len (DeprecatedExtraInfo a) = map_len (DeprecatedExtraInfo b) /\
     forall k v, map_index (DeprecatedExtraInfo a) k = Some v ->
                 map_index (DeprecatedExtraInfo b) k = Some v) /\
  compareEvent a b = compareEvent b a /\
  (map_len (DeprecatedExtraInfo a) = O ->
     (compareEvent a b = true <-> map_len (DeprecatedExtraInfo b) = O)) /\
  (DeprecatedExtraInfo a = Some map_a_b ->
     DeprecatedExtraInfo b = None \/ DeprecatedExtraInfo b = Some ∅ \/
     DeprecatedExtraInfo b = Some map_a_b_c_d ->
     compareEvent a b = false /\ compareEvent b a = false).
Proof.
  split; [apply compareEvent_spec |].
  split; [apply compareEvent_sym |].
  split.
  - intros Ha. rewrite compareEvent_entries, !map_len_entries in *.
    apply map_size_empty_inv in Ha. rewrite Ha. split.
    + intros <-. apply map_size_empty.
    + intros Hb. by apply map_size_empty_inv in Hb.
  - intros Ha Hb.
    assert (Hne : entries (DeprecatedExtraInfo a) <> entries (DeprecatedExtraInfo b)).
    { rewrite Ha. simpl.
      destruct Hb as [-> | [-> | ->]]; simpl;
        auto using map_a_b_not_empty, map_a_b_not_larger. }
    split; [| rewrite compareEvent_sym]; by apply compareEvent_false_entries.
Qed.

Lemma compareEvent_extra_info_rule_witness :
  compareEvent (withExtraInfo (Some map_a_b)) (withExtraInfo (Some ∅)) = false /\
  compareEvent (withExtraInfo (Some ∅)) (withExtraInfo (Some map_a_b)) = false.
Proof.
  apply (proj2 (proj2 (proj2
    (compareEvent_extra_info_rule (withExtraInfo (Some map_a_b))
                                  (withExtraInfo (Some ∅)))))).
  - reflexivity.
  - right. left. reflexivity.
Defined.

(** ** Purge *)

Section FilterFacts.
Context {A : Type} (f : A -> bool).

Lemma filter_split_length (l : list A) :
  (length (List.filter f l) + length (List.filter (fun x => negb (f x)) l)
   = length l)%nat.
Proof.
  induction l as [| x l IH]; simpl; [done |].
  destruct (f x); simpl; lia.
Qed.

Lemma filter_idem (l : list A) :
  List.filter f (List.filter f l) = List.filter f l.
Proof.
  induction l as [| x l IH]; simpl; [done |].
  destruct (f x) eqn:E; simpl; [rewrite E; by f_equal | done].
Qed.

End FilterFacts.

Lemma purgeEvents_eq (db : DB) tableName rows beforeTimestamp :
  db !! tableName = Some rows ->
  purgeEvents db tableName beforeTimestamp =
  Ok (<[tableName := List.filter (fun r => beforeTimestamp <=? timestamp r)%Z rows]> db,
      Z.of_nat (length rows) -
      Z.of_nat (length (List.filter (fun r => beforeTimestamp <=? timestamp r)%Z rows))).
Proof.
  intros Hdb. unfold purgeEvents. rewrite Hdb.
  assert (Hext : List.filter (fun r => negb (timestamp r <? beforeTimestamp)%Z) rows
                 = List.filter (fun r => (beforeTimestamp <=? timestamp r)%Z) rows).
  { apply filter_ext. intros r. lia. }
  rewrite Hext. do 2 f_equal.
  pose proof (filter_split_length (fun r => (timestamp r <? beforeTimestamp)%Z) rows) as Hlen.
  cbv beta in Hlen. rewrite Hext in Hlen. lia.
Qed.

(** C5. [Purge] removes exactly the rows whose timestamp is strictly below
    the cutoff: the rows that stay are those at or above it, in their stored
    order (a row at the cutoff survives), other tables are untouched, and
    the returned count is the number of rows removed (zero is a normal
    result).  On an empty bucket the result is (0, nil) and nothing changes;
    a second [Purge] with the same cutoff removes nothing and returns 0. *)
Theorem purgeEvents_strictly_before_cutoff
    (db : DB) (tableName : string) (rows : list Row) (beforeTimestamp : Z) :
  db !! tableName = Some rows ->
  exists (db' : DB) (kept : list Row) (n : Z),
    purgeEvents db tableName beforeTimestamp = Ok (db', n) /\
    db' !! tableName = Some kept /\
    kept = List.filter (fun r => beforeTimestamp <=? timestamp r)%Z rows /\
    (forall r, In r kept <-> In r rows /\ beforeTimestamp <= timestamp r) /\
    (forall other, other <> tableName -> db' !! other = db !! other) /\
    n = Z.of_nat (length rows) - Z.of_nat (length kept) /\
    0 <= n /\
    (rows = [] -> db' = db /\ n = 0) /\
    purgeEvents db' tableName beforeTimestamp = Ok (db', 0).
Proof.
  intros Hdb.
  set (kept := List.filter (fun r => beforeTimestamp <=? timestamp r)%Z rows).
  exists (<[tableName := kept]> db), kept,
         (Z.of_nat (length rows) - Z.of_nat (length kept)).
  split; [by apply purgeEvents_eq |].
  split; [by rewrite lookup_insert_eq |].
  split; [done |].
  split.
  { intros r. unfold kept. rewrite filter_In. rewrite Z.leb_le. done. }
  split.
  { intros other Hne. by rewrite lookup_insert_ne. }
  split; [done |].
  split.
  { pose proof (filter_split_length (fun r => (beforeTimestamp <=? timestamp r)%Z) rows)
      as Hlen.
    unfold kept. cbv beta in Hlen. lia. }
  split.
  { intros ->. subst kept. simpl. split; [by apply insert_id | done]. }
  assert (Hk : List.filter (fun r => beforeTimestamp <=? timestamp r)%Z kept = kept)
    by apply filter_idem.
  rewrite (purgeEvents_eq _ _ kept) by (by rewrite lookup_insert_eq).
  rewrite Hk, insert_insert_eq. do 2 f_equal. lia.
Qed.

Lemma purgeEvents_strictly_before_cutoff_witness :
  exists (db' : DB) (kept : list Row) (n : Z),
    purgeEvents {[ "t" := [row_at 1 "old"; row_at 2 "edge"; row_at 3 "new"] ]} "t" 2
      = Ok (db', n) /\
    db' !! "t" = Some kept /\
    kept = List.filter (fun r => 2 <=? timestamp r)%Z
                       [row_at 1 "old"; row_at 2 "edge"; row_at 3 "new"] /\
    (forall r, In r kept <->
               In r [row_at 1 "old"; row_at 2 "edge"; row_at 3 "new"] /\ 2 <= timestamp r) /\
    (forall other, other <> "t" ->
       db' !! other =
       ({[ "t" := [row_at 1 "old"; row_at 2 "edge"; row_at 3 "new"] ]} : DB) !! other) /\
    n = Z.of_nat (length [row_at 1 "old"; row_at 2 "edge"; row_at 3 "new"])
        - Z.of_nat (length kept) /\
    0 <= n /\
    ([row_at 1 "old"; row_at 2 "edge"; row_at 3 "new"] = [] ->
       db' = {[ "t" := [row_at 1 "old"; row_at 2 "edge"; row_at 3 "new"] ]} /\ n = 0) /\
    purgeEvents db' "t" 2 = Ok (db', 0).
Proof.
  apply (purgeEvents_strictly_before_cutoff
           {[ "t" := [row_at 1 "old"; row_at 2 "edge"; row_at 3 "new"] ]} "t"
           [row_at 1 "old"; row_at 2 "edge"; row_at 3 "new"] 2).
  reflexivity.
Defined.

(** ** Decoding a row *)

Section Codec.
Context {T : Type} (parse : string -> json T).

Lemma unmarshalIfValid_absent :
  unmarshalIfValid parse None = Ok None /\
  unmarshalIfValid parse (Some "") = Ok None /\
  unmarshalIfValid parse (Some "null") = Ok None.
Proof. repeat split. Qed.

Lemma unmarshalIfValid_not_object (s : string) :
  s <> "" -> s <> "null" -> String.prefix "{" s = false ->
  unmarshalIfValid parse (Some s) = Err (ErrInvalidJSON s).
Proof.
  intros Hne Hnull Hpre. unfold unmarshalIfValid.
  destruct s as [| c s]; [done |]. simpl String.length. simpl Nat.eqb.
  apply String.eqb_neq in Hnull. rewrite Hnull, Hpre. reflexivity.
Qed.

Lemma unmarshalIfValid_object (s : string) :
  String.prefix "{" s = true ->
  unmarshalIfValid parse (Some s) =
  match parse s with
  | Parsed v => Ok (Some v)
  | Malformed d => Err (ErrJSON d)
  end.
Proof.
  intros Hpre. unfold unmarshalIfValid.
  destruct s as [| c s]; [done |]. simpl String.length. simpl Nat.eqb.
  assert (Hnull : String.eqb (String c s) "null" = false).
  { apply String.eqb_neq. intros Heq. rewrite Heq in Hpre. done. }
  rewrite Hnull, Hpre. reflexivity.
Qed.

Lemma unmarshalIfValid_error (data : option string) (e : error) :
  unmarshalIfValid parse data = Err e ->
  errors_Is_ErrNoRows e = false.
Proof.
  unfold unmarshalIfValid. destruct data as [s |]; [| done].
  destruct (_ || _); [done |].
  destruct (negb _); [by intros [= <-] |].
  destruct (parse s); [done | by intros [= <-]].
Qed.
End Codec.

Section Rows.
Context {lib : GoLib}.

Lemma scanRows_extra_info_error (r : Row) (e : error) :
  unmarshalIfValid json_Unmarshal_map (extra_info r) = Err e ->
  scanRows r = Err (ErrWrap "failed to unmarshal extra info" e).
Proof. intros He. unfold scanRows. by rewrite He. Qed.

Lemma scanRows_suggested_actions_error (r : Row) extraInfo (e : error) :
  unmarshalIfValid json_Unmarshal_map (extra_info r) = Ok extraInfo ->
  unmarshalIfValid json_Unmarshal_actions (suggested_actions r) = Err e ->
  scanRows r = Err (ErrWrap "failed to unmarshal suggested actions" e).
Proof. intros Hx He. unfold scanRows. by rewrite Hx, He. Qed.

Lemma scanRows_error (r : Row) (e : error) :
  scanRows r = Err e ->
  unmarshal_failure e /\ errors_Is_ErrNoRows e = false.
Proof.
  unfold scanRows, unmarshal_failure.
  destruct (unmarshalIfValid json_Unmarshal_map (extra_info r)) as [x | e1] eqn:E1.
  - destruct (unmarshalIfValid json_Unmarshal_actions (suggested_actions r))
      as [y | e2] eqn:E2; [done |].
    intros [= <-]. split; [eauto |].
    simpl. by eapply unmarshalIfValid_error.
  - intros [= <-]. split; [eauto |].
    simpl. by eapply unmarshalIfValid_error.
Qed.

Lemma scanRows_fields (r : Row) (e : Event) :
  scanRows r = Ok e ->
  EvTime e = time_Unix (timestamp r) 0 /\
  Name e = name r /\
  Type_ e = type r /\
  Message e = match message r with Some s => s | None => "" end.
Proof.
  unfold scanRows.
  destruct (unmarshalIfValid json_Unmarshal_map _); [| done].
  destruct (unmarshalIfValid json_Unmarshal_actions _); [| done].
  by intros [= <-].
Qed.

(** The read loop of [getEvents]. *)
Lemma getEvents_loop_ok (rows : list Row) (events : list Event) :
  Forall (fun r => exists e, scanRows r = Ok e) rows ->
  exists decoded,
    Forall2 (fun r e => scanRows r = Ok e) rows decoded /\
    getEvents_loop rows events = Ok (events ++ decoded)%list.
Proof.
  intros Hall. revert events.
  induction Hall as [| r rows [e He] _ IH]; intros events; simpl.
  - exists []. split; [constructor | by rewrite app_nil_r].
  - rewrite He. destruct (IH (events ++ [e])%list) as (decoded & HF & Hloop).
    exists (e :: decoded). split; [by constructor |].
    rewrite Hloop. by rewrite <- app_assoc.
Qed.

Lemma getEvents_loop_error (rows : list Row) (events : list Event) r e :
  In r rows -> scanRows r = Err e ->
  exists r' e', In r' rows /\ scanRows r' = Err e' /\
                getEvents_loop rows events = Err e'.
Proof.
  revert events. induction rows as [| r0 rows IH]; intros events Hin He; [done |].
  simpl. destruct (scanRows r0) as [e0 | e0] eqn:E0.
  - destruct Hin as [-> | Hin]; [congruence |].
    destruct (IH (events ++ [e0])%list Hin He) as (r' & e' & ? & ? & ?).
    exists r', e'. repeat split; simpl; auto.
  - exists r0, e0. repeat split; simpl; auto.
Qed.

Lemma getEvents_loop_sound (rows : list Row) (events out : list Event) :
  getEvents_loop rows events = Ok out ->
  exists decoded,
    out = (events ++ decoded)%list /\
    Forall2 (fun r e => scanRows r = Ok e) rows decoded.
Proof.
  revert events. induction rows as [| r rows IH]; intros events; simpl.
  - intros [= <-]. exists []. split; [by rewrite app_nil_r | constructor].
  - destruct (scanRows r) as [e |] eqn:E; [| done].
    intros Hloop. destruct (IH _ Hloop) as (decoded & -> & HF).
    exists (e :: decoded). split; [by rewrite <- app_assoc | by constructor].
Qed.
End Rows.

(** ** Find *)

Lemma sql_text_eq_true (column : option string) (v : string) :
  sql_text_eq column v = true <-> column = Some v.
Proof.
  destruct column as [s |]; simpl; [| done].
  rewrite String.eqb_eq. split; congruence.
Qed.

Section Find.
Context {lib : GoLib}.

Lemma skipped_passed_over (p : Row -> bool) (probe : Event) (rows : list Row) :
  (forall r, p r = true <-> candidate probe r) ->
  Forall (skipped p probe) rows <-> Forall (passed_over probe) rows.
Proof.
  intros Hp. apply Forall_iff. intros r. unfold skipped, passed_over.
  rewrite Hp. split; intros Hr Hc; destruct (Hr Hc) as (e & He & Hcmp);
    exists e; (split; [done |]).
  - rewrite <- compareEvent_spec. by rewrite Hcmp.
  - apply not_true_is_false. by rewrite compareEvent_spec.
Qed.

Lemma findEvent_loop_skip (p : Row -> bool) (pre rest : list Row) (probe : Event) :
  Forall (skipped p probe) pre ->
  findEvent_loop (List.filter p (pre ++ rest)) probe =
  findEvent_loop (List.filter p rest) probe.
Proof.
  induction 1 as [| r pre Hr _ IH]; simpl; [done |].
  destruct (p r) eqn:Hp; [| done].
  destruct (Hr Hp) as (e & He & Hcmp). simpl. by rewrite He, Hcmp.
Qed.

Lemma findEvent_loop_none (p : Row -> bool) (rows : list Row) (probe : Event) :
  findEvent_loop (List.filter p rows) probe = Ok None <->
  Forall (skipped p probe) rows.
Proof.
  split.
  - induction rows as [| r rows IH]; simpl; [constructor |].
    destruct (p r) eqn:Hp; simpl.
    + destruct (scanRows r) as [e |] eqn:He; [| done].
      destruct (compareEvent e probe) eqn:Hcmp; [done |].
      intros Hloop. constructor; [| by apply IH].
      intros _. by exists e.
    + intros Hloop. constructor; [| by apply IH].
      unfold skipped. congruence.
  - intros Hall.
    rewrite <- (app_nil_r rows), findEvent_loop_skip by done. done.
Qed.

Lemma findEvent_loop_found (p : Row -> bool) (rows : list Row) (probe e : Event) :
  findEvent_loop (List.filter p rows) probe = Ok (Some e) <->
  exists pre r post,
    rows = (pre ++ r :: post)%list /\
    Forall (skipped p probe) pre /\
    p r = true /\ scanRows r = Ok e /\ compareEvent e probe = true.
Proof.
  split.
  - induction rows as [| r rows IH]; simpl; [done |].
    destruct (p r) eqn:Hp; simpl.
    + destruct (scanRows r) as [e0 |] eqn:He; [| done].
      destruct (compareEvent e0 probe) eqn:Hcmp.
      * intros [= <-]. by exists [], r, rows.
      * intros Hloop. destruct (IH Hloop) as (pre & r1 & post & -> & Hpre & ?).
        exists (r :: pre), r1, post. split; [done |]. split; [| done].
        constructor; [| done]. intros _. by exists e0.
    + intros Hloop. destruct (IH Hloop) as (pre & r1 & post & -> & Hpre & ?).
      exists (r :: pre), r1, post. split; [done |]. split; [| done].
      constructor; [| done]. unfold skipped. congruence.
  - intros (pre & r & post & -> & Hpre & Hp & He & Hcmp).
    rewrite findEvent_loop_skip by done. simpl. rewrite Hp. simpl.
    by rewrite He, Hcmp.
Qed.

Lemma findEvent_loop_error (p : Row -> bool) (pre post : list Row) r probe e :
  Forall (skipped p probe) pre -> p r = true -> scanRows r = Err e ->
  findEvent_loop (List.filter p (pre ++ r :: post)) probe = Err e.
Proof.
  intros Hpre Hp He. rewrite findEvent_loop_skip by done.
  simpl. rewrite Hp. simpl. by rewrite He.
Qed.

Lemma findEvent_serializable (db : DB) tableName probe (res : option Event) :
  findEvent db tableName probe = Ok res -> serializable probe.
Proof.
  unfold findEvent, serializable. intros Hfind sa Hsa. rewrite Hsa in Hfind.
  destruct (json_Marshal_actions sa) as [js | d]; [by exists js | done].
Qed.

Lemma candidate_serializable (probe : Event) (r : Row) :
  candidate probe r -> serializable probe.
Proof.
  intros (_ & _ & _ & _ & Hsa) sa Hprobe.
  destruct (Hsa sa Hprobe) as (js & ? & _). by exists js.
Qed.

Lemma findEvent_eq (db : DB) tableName rows probe :
  db !! tableName = Some rows -> serializable probe ->
  exists p : Row -> bool,
    (forall r, p r = true <-> candidate probe r) /\
    findEvent db tableName probe = findEvent_loop (List.filter p rows) probe.
Proof.
  intros Hdb Hser. unfold findEvent, query_where, candidate. rewrite Hdb.
  destruct (DeprecatedSuggestedActions probe) as [sa |] eqn:Hsa.
  - destruct (Hser sa Hsa) as (js & Hjs). rewrite Hjs.
    destruct (String.eqb_spec (Message probe) "") as [Hm | Hm];
      (eexists; split; [| reflexivity]); intros r; simpl;
      rewrite ?andb_true_iff, Z.eqb_eq, !String.eqb_eq, ?sql_text_eq_true.
    + split.
      * intros (? & ? & ? & Hs & _). repeat split; try done.
        intros sa' [= <-]. by exists js.
      * intros (? & ? & ? & _ & Hs). repeat split; try done.
        destruct (Hs sa eq_refl) as (js' & Hjs' & ->). congruence.
    + split.
      * intros (? & ? & ? & Hmsg & Hs & _). repeat split; try done.
        intros sa' [= <-]. by exists js.
      * intros (? & ? & ? & Hmsg & Hs). repeat split; auto.
        destruct (Hs sa eq_refl) as (js' & Hjs' & ->). congruence.
  - destruct (String.eqb_spec (Message probe) "") as [Hm | Hm];
      (eexists; split; [| reflexivity]); intros r; simpl;
      rewrite ?andb_true_iff, Z.eqb_eq, !String.eqb_eq, ?sql_text_eq_true.
    + split.
      * intros (? & ? & ? & _). repeat split; done.
      * intros (? & ? & ? & _ & _). repeat split; done.
    + split.
      * intros (? & ? & ? & Hmsg & _). repeat split; done.
      * intros (? & ? & ? & Hmsg & _). repeat split; auto.
Qed.
End Find.

(** C1. [Find] on a bucket whose table holds [rows]: it returns the event
    of the first row, in scan order, that passes the SQL predicate (same
    unix-second timestamp, name and type as the probe; the probe's message
    when that is non-empty; the probe's serialized suggested actions when
    those are non-nil) and whose decoded ExtraInfo equals the probe's by the
    ExtraInfo rule, the rule being checked on the selected rows after
    decoding; every selected row before it holds an event that the rule
    rejects.  It returns nil without error exactly when every selected row
    holds an event that the rule rejects.  A returned event agrees with the
    probe on timestamp, name and type, and on the message when the probe
    has one. *)
Theorem findEvent_first_match {lib : GoLib}
    (db : DB) (tableName : string) (rows : list Row) (probe : Event) :
  db !! tableName = Some rows ->
  (forall e,
     findEvent db tableName probe = Ok (Some e) <->
     exists pre r post,
       rows = (pre ++ r :: post)%list /\
       Forall (passed_over probe) pre /\
       candidate probe r /\ scanRows r = Ok e /\ extraInfoEqual e probe) /\
  (findEvent db tableName probe = Ok None <->
     serializable probe /\ Forall (passed_over probe) rows) /\
  (forall e,
     findEvent db tableName probe = Ok (Some e) ->
     Unix (EvTime e) = Unix (EvTime probe) /\
     Name e = Name probe /\
     Type_ e = Type_ probe /\
     (Message probe <> "" -> Message e = Message probe)).
Proof.
  intros Hdb.
  assert (Hfound : forall e,
     findEvent db tableName probe = Ok (Some e) <->
     exists pre r post,
       rows = (pre ++ r :: post)%list /\
       Forall (passed_over probe) pre /\
       candidate probe r /\ scanRows r = Ok e /\ extraInfoEqual e probe).
  { intros e. split.
    - intros Hfind.
      destruct (findEvent_eq db tableName rows probe Hdb
                  (findEvent_serializable _ _ _ _ Hfind)) as (p & Hp & Heq).
      rewrite Heq in Hfind. apply findEvent_loop_found in Hfind.
      destruct Hfind as (pre & r & post & -> & Hpre & Hpr & He & Hcmp).
      exists pre, r, post. split; [done |].
      split; [by apply (skipped_passed_over p) |].
      split; [by apply Hp |]. split; [done |]. by apply compareEvent_spec.
    - intros (pre & r & post & -> & Hpre & Hc & He & Heq).
      destruct (findEvent_eq db tableName _ probe Hdb
                  (candidate_serializable _ _ Hc)) as (p & Hp & Hfind).
      rewrite Hfind. apply findEvent_loop_found.
      exists pre, r, post. split; [done |].
      split; [by apply (skipped_passed_over p) |].
      split; [by apply Hp |]. split; [done |]. by apply compareEvent_spec. }
  split; [exact Hfound |]. split.
  - split.
    + intros Hfind. pose proof (findEvent_serializable _ _ _ _ Hfind) as Hser.
      split; [done |].
      destruct (findEvent_eq db tableName rows probe Hdb Hser) as (p & Hp & Heq).
      rewrite Heq in Hfind. apply findEvent_loop_none in Hfind.
      by apply (skipped_passed_over p).
    + intros [Hser Hall].
      destruct (findEvent_eq db tableName rows probe Hdb Hser) as (p & Hp & Heq).
      rewrite Heq. apply findEvent_loop_none. by apply (skipped_passed_over p).
  - intros e Hfind. apply Hfound in Hfind.
    destruct Hfind as (pre & r & post & _ & _ & Hc & He & _).
    destruct Hc as (Hts & Hn & Ht & Hm & _).
    destruct (scanRows_fields r e He) as (-> & -> & -> & ->).
    repeat split; try done.
    intros Hne. by rewrite (Hm Hne).
Qed.

Lemma findEvent_first_match_witness :
  @findEvent stubLib
     {[ "t" := [row_extra 5 (Some doc_empty); row_extra 5 (Some doc_a_b)] ]} "t"
     (event_extra (mkTime 5 250) (Some map_a_b))
  = Ok (Some (event_extra (time_Unix 5 0) (Some map_a_b))).
Proof.
  assert (Hdb : ({[ "t" := [row_extra 5 (Some doc_empty); row_extra 5 (Some doc_a_b)] ]} : DB)
                  !! "t"
                = Some [row_extra 5 (Some doc_empty); row_extra 5 (Some doc_a_b)])
    by reflexivity.
  apply (proj1 (@findEvent_first_match stubLib _ "t" _
                  (event_extra (mkTime 5 250) (Some map_a_b)) Hdb)).
  exists [row_extra 5 (Some doc_empty)], (row_extra 5 (Some doc_a_b)), [].
  split; [reflexivity |]. split.
  - constructor; [| constructor]. intros _.
    exists (event_extra (time_Unix 5 0) (Some ∅)). split; [reflexivity |].
    rewrite <- compareEvent_spec. vm_compute. discriminate.
  - split.
    + repeat split; try reflexivity.
      * intros Hne. exfalso. apply Hne. reflexivity.
      * intros sa Hsa. discriminate Hsa.
    + split; [reflexivity |]. apply compareEvent_spec. vm_compute. reflexivity.
Defined.

(** ** Get and Latest *)

Lemma newer_first_strict (rows : list Row) :
  StronglySorted (fun r1 r2 => timestamp r2 <= timestamp r1) rows ->
  NoDup (map timestamp rows) ->
  StronglySorted (fun r1 r2 => timestamp r2 < timestamp r1) rows.
Proof.
  induction 1 as [| r rows Hs IH Hall]; simpl; intros Hnd; [constructor |].
  inversion Hnd as [| ? ? Hnotin Hnd']; subst.
  constructor; [by apply IH |].
  rewrite List.Forall_forall in *. intros r' Hin.
  specialize (Hall r' Hin). simpl in Hall.
  assert (timestamp r' <> timestamp r); [| lia].
  intros Heq. apply Hnotin. rewrite <- Heq. apply list_elem_of_In. by apply in_map.
Qed.

Section Get.
Context {lib : GoLib} {engine : SqlEngine}.

Lemma decoded_Forall (P : Z -> Prop) (rows : list Row) (events : list Event) :
  Forall2 (fun r e => scanRows r = Ok e) rows events ->
  Forall (fun r => P (timestamp r)) rows ->
  Forall (fun e => P (Unix (EvTime e))) events.
Proof.
  induction 1 as [| r e rows events He _ IH]; intros Hall; [constructor |].
  inversion Hall; subst. constructor; [| by apply IH].
  destruct (scanRows_fields r e He) as (-> & _). done.
Qed.

Lemma decoded_sorted (R : Z -> Z -> Prop) (rows : list Row) (events : list Event) :
  Forall2 (fun r e => scanRows r = Ok e) rows events ->
  StronglySorted (fun r1 r2 => R (timestamp r1) (timestamp r2)) rows ->
  StronglySorted (fun e1 e2 => R (Unix (EvTime e1)) (Unix (EvTime e2))) events.
Proof.
  induction 1 as [| r e rows events He HF IH]; intros Hs; [constructor |].
  inversion Hs as [| ? ? Hs' Hall]; subst.
  constructor; [by apply IH |].
  destruct (scanRows_fields r e He) as (-> & _). simpl.
  by apply (decoded_Forall (fun z => R (timestamp r) z) rows events).
Qed.

Lemma query_since_rows (rows : list Row) (since : Z) (r : Row) :
  In r (order_by_timestamp_desc (List.filter (fun r => (since <? timestamp r)%Z) rows))
  <-> In r rows /\ since < timestamp r.
Proof.
  rewrite <- Z.ltb_lt, <- (filter_In (fun r => (since <? timestamp r)%Z)).
  split; apply Permutation_in;
    [| symmetry]; apply order_by_timestamp_desc_perm.
Qed.

Lemma getEvents_eq (db : DB) tableName rows since :
  db !! tableName = Some rows ->
  getEvents db tableName since =
  match getEvents_loop
          (order_by_timestamp_desc
             (List.filter (fun r => (Unix since <? timestamp r)%Z) rows)) [] with
  | Err e => Err e
  | Ok events => if (length events =? 0)%nat then Ok None else Ok (Some events)
  end.
Proof. intros Hdb. unfold getEvents, query_since. by rewrite Hdb. Qed.

Lemma lastEvent_eq (db : DB) tableName rows :
  db !! tableName = Some rows ->
  lastEvent db tableName =
  match head (order_by_timestamp_desc rows) with
  | None => Ok None
  | Some r =>
      match scanRows r with
      | Ok e => Ok (Some e)
      | Err e => Err e
      end
  end.
Proof.
  intros Hdb. unfold lastEvent, query_latest, scanRow. rewrite Hdb.
  destruct (head _) as [r |]; [| done].
  destruct (scanRows r) as [e | e] eqn:He; [done |].
  by rewrite (proj2 (scanRows_error r e He)).
Qed.
End Get.

Section Latest.
Context {lib : GoLib} {engine : SqlEngine}.

Lemma newest_row_first (rows : list Row) (r : Row) :
  head (order_by_timestamp_desc rows) = Some r ->
  In r rows /\ forall r', In r' rows -> timestamp r' <= timestamp r.
Proof.
  intros Hhd.
  pose proof (order_by_timestamp_desc_perm rows) as Hperm.
  pose proof (order_by_timestamp_desc_sorted rows) as Hsorted.
  destruct (order_by_timestamp_desc rows) as [| r0 sel]; [done |].
  injection Hhd as ->. split.
  - apply (Permutation_in r Hperm). by left.
  - intros r' Hin. apply (Permutation_in r' (Permutation_sym Hperm)) in Hin.
    inversion Hsorted as [| ? ? _ Hall]; subst.
    destruct Hin as [<- | Hin]; [lia |].
    rewrite List.Forall_forall in Hall. by apply Hall.
Qed.

Lemma order_nil_iff (rows : list Row) :
  order_by_timestamp_desc rows = [] <-> rows = [].
Proof.
  pose proof (order_by_timestamp_desc_perm rows) as Hperm. split.
  - intros Hnil. rewrite Hnil in Hperm. by apply Permutation_nil in Hperm.
  - intros ->. by apply Permutation_nil, Permutation_sym.
Qed.

Lemma filter_all (f : Row -> bool) (rows : list Row) :
  Forall (fun r => f r = true) rows -> List.filter f rows = rows.
Proof.
  induction 1 as [| r rows Hr _ IH]; simpl; [done |]. by rewrite Hr, IH.
Qed.
End Latest.

(** C3, as the code has it.  [Get] on a bucket whose rows newer than
    [since] all decode: it returns exactly the events of the rows whose
    timestamp is strictly greater than [since] (rows at or below [since] are
    left out), newest first, where rows that share a timestamp may come in
    either order, so the order is non-increasing and it is strictly
    decreasing when the selected timestamps are pairwise distinct; when no
    row qualifies the result is nil, not an empty collection. *)
Theorem getEvents_newer_than_since {lib : GoLib} {engine : SqlEngine}
    (db : DB) (tableName : string) (rows : list Row) (since : Time) :
  db !! tableName = Some rows ->
  Forall (fun r => exists e, scanRows r = Ok e)
         (List.filter (fun r => (Unix since <? timestamp r)%Z) rows) ->
  exists (selected : list Row) (events : list Event),
    selected ≡ₚ List.filter (fun r => (Unix since <? timestamp r)%Z) rows /\
    (forall r, In r selected <-> In r rows /\ Unix since < timestamp r) /\
    Forall2 (fun r e => scanRows r = Ok e) selected events /\
    Forall (fun e => Unix since < Unix (EvTime e)) events /\
    StronglySorted newest_first events /\
    (NoDup (map timestamp selected) -> StronglySorted strictly_newest_first events) /\
    (selected = [] -> getEvents db tableName since = Ok None) /\
    (selected <> [] -> getEvents db tableName since = Ok (Some events)).
Proof.
  intros Hdb Hdec.
  set (qualifying := List.filter (fun r => (Unix since <? timestamp r)%Z) rows) in *.
  set (selected := order_by_timestamp_desc qualifying).
  assert (Hperm : selected ≡ₚ qualifying) by apply order_by_timestamp_desc_perm.
  assert (Hdec' : Forall (fun r => exists e, scanRows r = Ok e) selected).
  { by rewrite Hperm. }
  destruct (getEvents_loop_ok selected [] Hdec') as (events & HF & Hloop).
  simpl in Hloop.
  assert (Hsorted : StronglySorted (fun r1 r2 => timestamp r2 <= timestamp r1) selected)
    by apply order_by_timestamp_desc_sorted.
  exists selected, events.
  split; [done |].
  split; [intros r; apply query_since_rows |].
  split; [done |].
  split.
  { apply (decoded_Forall (fun z => Unix since < z) selected events HF).
    rewrite List.Forall_forall. intros r Hin. by apply query_since_rows in Hin as [_ ?]. }
  split.
  { by apply (decoded_sorted (fun a b => b <= a) selected events HF). }
  split.
  { intros Hnd. apply (decoded_sorted (fun a b => b < a) selected events HF).
    by apply newer_first_strict. }
  rewrite (getEvents_eq db tableName rows since Hdb). fold qualifying. fold selected.
  rewrite Hloop. split.
  - intros Hnil. rewrite Hnil in HF. by inversion HF.
  - intros Hne. destruct HF; [done | reflexivity].
Qed.

Lemma getEvents_newer_than_since_witness :
  exists (selected : list Row) (events : list Event),
    selected ≡ₚ List.filter (fun r => (Unix (time_Unix 4 0) <? timestamp r)%Z)
                            [row_at 4 "edge"; row_at 7 "new"; row_at 6 "mid"] /\
    (forall r, In r selected <->
               In r [row_at 4 "edge"; row_at 7 "new"; row_at 6 "mid"] /\
               Unix (time_Unix 4 0) < timestamp r) /\
    Forall2 (fun r e => @scanRows stubLib r = Ok e) selected events /\
    Forall (fun e => Unix (time_Unix 4 0) < Unix (EvTime e)) events /\
    StronglySorted newest_first events /\
    (NoDup (map timestamp selected) -> StronglySorted strictly_newest_first events) /\
    (selected = [] ->
       @getEvents stubLib stubEngine
         {[ "t" := [row_at 4 "edge"; row_at 7 "new"; row_at 6 "mid"] ]} "t" (time_Unix 4 0)
       = Ok None) /\
    (selected <> [] ->
       @getEvents stubLib stubEngine
         {[ "t" := [row_at 4 "edge"; row_at 7 "new"; row_at 6 "mid"] ]} "t" (time_Unix 4 0)
       = Ok (Some events)).
Proof.
  apply (@getEvents_newer_than_since stubLib stubEngine
           {[ "t" := [row_at 4 "edge"; row_at 7 "new"; row_at 6 "mid"] ]} "t"
           [row_at 4 "edge"; row_at 7 "new"; row_at 6 "mid"] (time_Unix 4 0)).
  - reflexivity.
  - simpl. repeat constructor; eexists; reflexivity.
Defined.

(** Whatever order the engine gives to equal timestamps, two events of the
    same second are both returned and the result is not strictly
    descending. *)
Lemma getEvents_same_second_any_engine {lib : GoLib} {engine : SqlEngine} :
  exists events,
    getEvents {[ "t" := same_second_rows ]} "t" (time_Unix 0 0) = Ok (Some events) /\
    length events = 2%nat /\
    ~ StronglySorted strictly_newest_first events.
Proof.
  assert (Hdb : ({[ "t" := same_second_rows ]} : DB) !! "t" = Some same_second_rows)
    by apply lookup_singleton_eq.
  rewrite (getEvents_eq _ "t" same_second_rows (time_Unix 0 0) Hdb). simpl List.filter.
  pose proof (order_by_timestamp_desc_perm same_second_rows) as Hperm.
  unfold same_second_rows in *.
  apply Permutation_sym, Permutation_length_2_inv in Hperm as [-> | ->];
    simpl; eexists; (split; [reflexivity |]); (split; [reflexivity |]);
    intros Hs; inversion Hs as [| ? ? _ Hall]; subst;
    inversion Hall as [| ? ? Hlt _]; subst;
    unfold strictly_newest_first in Hlt; simpl in Hlt; lia.
Qed.

(** C3 as stated does not hold: two events inserted within the same second
    both come back from [Get], so the result is not strictly descending. *)
Lemma getEvents_same_second_not_strict :
  @insertEvent stubLib {[ "t" := [] ]} "t" same_second_a
    = Ok {[ "t" := [mkRow 5 "gpu" "Warning" (Some "first") None None] ]} /\
  @insertEvent stubLib {[ "t" := [mkRow 5 "gpu" "Warning" (Some "first") None None] ]}
                       "t" same_second_b
    = Ok {[ "t" := same_second_rows ]} /\
  @getEvents stubLib stubEngine {[ "t" := same_second_rows ]} "t" (time_Unix 0 0)
    = Ok (Some [ mkEvent (time_Unix 5 0) "gpu" "Warning" "first" None None;
                 mkEvent (time_Unix 5 0) "gpu" "Warning" "second" None None ]) /\
  ~ StronglySorted strictly_newest_first
      [ mkEvent (time_Unix 5 0) "gpu" "Warning" "first" None None;
        mkEvent (time_Unix 5 0) "gpu" "Warning" "second" None None ].
Proof.
  split; [vm_compute; reflexivity |].
  split; [vm_compute; reflexivity |].
  split; [vm_compute; reflexivity |].
  intros Hs. inversion Hs as [| ? ? _ Hall]; subst.
  inversion Hall as [| ? ? Hlt _]; subst.
  unfold strictly_newest_first in Hlt. simpl in Hlt. lia.
Qed.

(** C4. Decoding a stored payload: SQL NULL, the empty string and the string
    "null" decode to "absent" without error; any other value that does not
    begin with '{' fails with the "invalid JSON" error; a value that begins
    with '{' is handed to the JSON parser, whose outcome is the outcome of
    the decoding.  [scanRows] wraps a decoding failure of either payload
    column as "failed to unmarshal ...", and [Get], [Find] and [Latest]
    return that error for a row of the table they read instead of skipping
    the row: [Get] for a row newer than [since], [Find] for the first
    candidate row it reaches, [Latest] for the newest row of the table. *)
Theorem stored_payload_decoding {lib : GoLib} {engine : SqlEngine} :
  (forall T (parse : string -> json T),
     unmarshalIfValid parse None = Ok None /\
     unmarshalIfValid parse (Some "") = Ok None /\
     unmarshalIfValid parse (Some "null") = Ok None) /\
  (forall T (parse : string -> json T) s,
     s <> "" -> s <> "null" -> String.prefix "{" s = false ->
     unmarshalIfValid parse (Some s) = Err (ErrInvalidJSON s)) /\
  (forall T (parse : string -> json T) s,
     String.prefix "{" s = true ->
     unmarshalIfValid parse (Some s) =
     match parse s with
     | Parsed v => Ok (Some v)
     | Malformed d => Err (ErrJSON d)
     end) /\
  (forall r e,
     unmarshalIfValid json_Unmarshal_map (extra_info r) = Err e ->
     scanRows r = Err (ErrWrap "failed to unmarshal extra info" e)) /\
  (forall r extraInfo e,
     unmarshalIfValid json_Unmarshal_map (extra_info r) = Ok extraInfo ->
     unmarshalIfValid json_Unmarshal_actions (suggested_actions r) = Err e ->
     scanRows r = Err (ErrWrap "failed to unmarshal suggested actions" e)) /\
  (forall (db : DB) tableName rows since r e,
     db !! tableName = Some rows ->
     In r rows -> Unix since < timestamp r -> scanRows r = Err e ->
     exists r' e',
       In r' rows /\ Unix since < timestamp r' /\ scanRows r' = Err e' /\
       unmarshal_failure e' /\
       getEvents db tableName since = Err e') /\
  (forall (db : DB) tableName pre r post probe e,
     db !! tableName = Some (pre ++ r :: post)%list ->
     Forall (passed_over probe) pre ->
     candidate probe r -> scanRows r = Err e ->
     unmarshal_failure e /\ findEvent db tableName probe = Err e) /\
  (forall (db : DB) tableName rows r e,
     db !! tableName = Some rows ->
     In r rows ->
     (forall r', In r' rows -> r' = r \/ timestamp r' < timestamp r) ->
     scanRows r = Err e ->
     unmarshal_failure e /\ lastEvent db tableName = Err e) /\
  (forall (db : DB) tableName rows,
     db !! tableName = Some rows ->
     Forall (fun r => exists e, scanRows r = Err e) rows ->
     rows <> [] ->
     exists r e,
       In r rows /\ scanRows r = Err e /\ unmarshal_failure e /\
       lastEvent db tableName = Err e).
Proof.
  split; [intros; apply unmarshalIfValid_absent |].
  split; [intros; by apply unmarshalIfValid_not_object |].
  split; [intros; by apply unmarshalIfValid_object |].
  split; [intros; by apply scanRows_extra_info_error |].
  split; [intros; by eapply scanRows_suggested_actions_error |].
  split.
  { intros db tableName rows since r e Hdb Hin Hlt He.
    assert (Hsel : In r (order_by_timestamp_desc
                           (List.filter (fun r => (Unix since <? timestamp r)%Z) rows)))
      by by apply query_since_rows.
    destruct (getEvents_loop_error _ [] r e Hsel He) as (r' & e' & Hin' & He' & Hloop).
    apply query_since_rows in Hin' as [Hin' Hlt'].
    exists r', e'. split; [done |]. split; [done |]. split; [done |].
    split; [by apply (scanRows_error r') |].
    by rewrite (getEvents_eq db tableName rows since Hdb), Hloop. }
  split.
  { intros db tableName pre r post probe e Hdb Hpre Hc He.
    split; [by apply (scanRows_error r) |].
    destruct (findEvent_eq db tableName _ probe Hdb (candidate_serializable _ _ Hc))
      as (p & Hp & ->).
    apply findEvent_loop_error; [by apply (skipped_passed_over p) | by apply Hp | done]. }
  split.
  { intros db tableName rows r e Hdb Hin Hnewest He.
    split; [by apply (scanRows_error r) |].
    rewrite (lastEvent_eq db tableName rows Hdb).
    destruct (head (order_by_timestamp_desc rows)) as [top |] eqn:Hhd.
    - destruct (newest_row_first rows top Hhd) as [Htop Hmax].
      destruct (Hnewest top Htop) as [-> | Hlt]; [by rewrite He |].
      specialize (Hmax r Hin). lia.
    - exfalso. assert (Hnil : rows = []).
      { apply order_nil_iff. by destruct (order_by_timestamp_desc rows). }
      by rewrite Hnil in Hin. }
  intros db tableName rows Hdb Hall Hne.
  rewrite (lastEvent_eq db tableName rows Hdb).
  destruct (head (order_by_timestamp_desc rows)) as [top |] eqn:Hhd.
  - destruct (newest_row_first rows top Hhd) as [Htop _].
    rewrite List.Forall_forall in Hall. destruct (Hall top Htop) as (e & He).
    exists top, e. split; [done |]. split; [done |].
    split; [by apply (scanRows_error top) | by rewrite He].
  - exfalso. apply Hne, order_nil_iff. by destruct (order_by_timestamp_desc rows).
Qed.

Lemma stored_payload_decoding_witness :
  (exists r' e',
     In r' broken_rows /\ Unix (time_Unix 0 0) < timestamp r' /\
     @scanRows stubLib r' = Err e' /\
     unmarshal_failure e' /\
     @getEvents stubLib stubEngine {[ "t" := broken_rows ]} "t" (time_Unix 0 0) = Err e') /\
  @findEvent stubLib {[ "t" := broken_rows ]} "t"
     (mkEvent (mkTime 11 300) "test" "Warning" "" None None)
  = Err (ErrWrap "failed to unmarshal extra info" (ErrJSON "invalid character")) /\
  @lastEvent stubLib stubEngine {[ "t" := broken_rows ]} "t"
  = Err (ErrWrap "failed to unmarshal extra info" (ErrJSON "invalid character")).
Proof.
  assert (Hdb : ({[ "t" := broken_rows ]} : DB) !! "t" = Some broken_rows) by reflexivity.
  pose proof (@stored_payload_decoding stubLib stubEngine)
    as (_ & _ & _ & _ & _ & Hget & Hfind & Hlast & _).
  split; [| split].
  - apply (Hget {[ "t" := broken_rows ]} "t" broken_rows (time_Unix 0 0)
             (mkRow 11 "test" "Warning" None (Some doc_broken) (Some doc_broken))
             (ErrWrap "failed to unmarshal extra info" (ErrJSON "invalid character"))).
    + exact Hdb.
    + simpl. right. left. reflexivity.
    + simpl. lia.
    + reflexivity.
  - apply (Hfind {[ "t" := broken_rows ]} "t"
             [mkRow 10 "test" "Warning" None (Some doc_a_b) None]
             (mkRow 11 "test" "Warning" None (Some doc_broken) (Some doc_broken)) []).
    + exact Hdb.
    + constructor; [| constructor]. intros (Hts & _). simpl in Hts. lia.
    + split; [reflexivity |]. split; [reflexivity |]. split; [reflexivity |].
      split; [intros Hne; by destruct Hne | intros sa Hsa; discriminate Hsa].
    + reflexivity.
  - apply (Hlast {[ "t" := broken_rows ]} "t" broken_rows
             (mkRow 11 "test" "Warning" None (Some doc_broken) (Some doc_broken))).
    + exact Hdb.
    + simpl. right. left. reflexivity.
    + intros r' [<- | [<- | []]]; [right; simpl; lia | by left].
    + reflexivity.
Defined.

(** ** Insert and the message column *)

Section Message.
Context {lib : GoLib} {engine : SqlEngine}.

Lemma insertEvent_row (db db' : DB) tableName rows ev :
  db !! tableName = Some rows ->
  insertEvent db tableName ev = Ok db' ->
  exists r,
    db' = <[tableName := (rows ++ [r])%list]> db /\
    timestamp r = Unix (EvTime ev) /\ name r = Name ev /\ type r = Type_ ev /\
    message r = NULLIF (Message ev).
Proof.
  intros Hdb. unfold insertEvent. rewrite Hdb.
  destruct (match DeprecatedExtraInfo ev with
            | Some m => json_Marshal_map m
            | None => Parsed ""
            end) as [x | d]; [| done].
  destruct (match DeprecatedSuggestedActions ev with
            | Some sa => json_Marshal_actions sa
            | None => Parsed ""
            end) as [y | d]; [| done].
  intros [= <-]. eexists. split; [reflexivity |]. done.
Qed.

Lemma insertEvent_succeeds (db : DB) tableName rows ev :
  db !! tableName = Some rows ->
  marshalable ev ->
  exists db', insertEvent db tableName ev = Ok db'.
Proof.
  intros Hdb [Hs Hx]. unfold serializable in Hs. unfold insertEvent. rewrite Hdb.
  destruct (DeprecatedExtraInfo ev) as [m |].
  - destruct (Hx m eq_refl) as (jx & ->).
    destruct (DeprecatedSuggestedActions ev) as [sa |]; [| by eexists].
    destruct (Hs sa eq_refl) as (js & ->). by eexists.
  - destruct (DeprecatedSuggestedActions ev) as [sa |]; [| by eexists].
    destruct (Hs sa eq_refl) as (js & ->). by eexists.
Qed.

Lemma scanRows_message (r : Row) (e : Event) :
  scanRows r = Ok e ->
  Message e = match message r with Some s => s | None => "" end.
Proof. intros He. by destruct (scanRows_fields r e He) as (_ & _ & _ & ?). Qed.

Lemma NULLIF_round_trip (s : string) :
  match NULLIF s with Some s' => s' | None => "" end = s.
Proof. unfold NULLIF. by destruct (String.eqb_spec s ""). Qed.

Lemma decoded_from_row (selected : list Row) (decoded : list Event) (e : Event) :
  Forall2 (fun r e => scanRows r = Ok e) selected decoded -> In e decoded ->
  exists r, In r selected /\ scanRows r = Ok e.
Proof.
  induction 1 as [| r e0 sel dec He _ IH]; [done |].
  intros [<- | Hin].
  - exists r. split; [by left | done].
  - destruct (IH Hin) as (r' & ? & ?). exists r'. split; [by right | done].
Qed.

Lemma getEvents_from_rows (db : DB) tableName rows since events e :
  db !! tableName = Some rows ->
  getEvents db tableName since = Ok (Some events) -> In e events ->
  exists r, In r rows /\ scanRows r = Ok e.
Proof.
  intros Hdb Hget Hin. rewrite (getEvents_eq db tableName rows since Hdb) in Hget.
  destruct (getEvents_loop _ []) as [out |] eqn:Hloop; [| done].
  destruct (length out =? 0)%nat; [done |]. injection Hget as ->.
  apply getEvents_loop_sound in Hloop as (decoded & -> & HF). simpl in Hin.
  destruct (decoded_from_row _ _ e HF Hin) as (r & Hr & He).
  exists r. split; [| done]. by apply query_since_rows in Hr as [? _].
Qed.

Lemma lastEvent_from_rows (db : DB) tableName rows e :
  db !! tableName = Some rows ->
  lastEvent db tableName = Ok (Some e) ->
  exists r, In r rows /\ scanRows r = Ok e.
Proof.
  intros Hdb Hlast. rewrite (lastEvent_eq db tableName rows Hdb) in Hlast.
  destruct (head (order_by_timestamp_desc rows)) as [r |] eqn:Hhd; [| done].
  destruct (scanRows r) as [e0 |] eqn:He; [| done]. injection Hlast as ->.
  exists r. split; [| done].
  apply (Permutation_in r (order_by_timestamp_desc_perm rows)).
  destruct (order_by_timestamp_desc rows); [done |].
  injection Hhd as ->. by left.
Qed.

Lemma findEvent_from_rows (db : DB) tableName rows probe e :
  db !! tableName = Some rows ->
  findEvent db tableName probe = Ok (Some e) ->
  exists r, In r rows /\ scanRows r = Ok e.
Proof.
  intros Hdb Hfind.
  destruct (findEvent_eq db tableName rows probe Hdb
              (findEvent_serializable _ _ _ _ Hfind)) as (p & _ & Heq).
  rewrite Heq in Hfind. apply findEvent_loop_found in Hfind.
  destruct Hfind as (pre & r & post & -> & _ & _ & He & _).
  exists r. split; [| done]. apply in_or_app. right. by left.
Qed.
End Message.

(** ** Store: bucket creation *)

Section Store.
Context {lib : GoLib} {engine : SqlEngine}.

Lemma createTable_ok (db db' : DB) tableName :
  createTable db tableName = Ok db' ->
  ddl_accepts tableName = true /\
  is_Some (db' !! tableName) /\
  (is_Some (db !! tableName) -> db' = db).
Proof.
  unfold createTable. destruct (ddl_accepts tableName); [| done].
  destruct (db !! tableName) as [rows |] eqn:Hdb; intros [= <-].
  - rewrite Hdb. eauto.
  - rewrite lookup_insert_eq. split; [done |]. split; [eauto |].
    by intros [? ?].
Qed.

Lemma createTable_accepts (db : DB) tableName :
  ddl_accepts tableName = true -> exists db', createTable db tableName = Ok db'.
Proof.
  intros Hok. unfold createTable. rewrite Hok.
  destruct (db !! tableName); eauto.
Qed.

Lemma newTable_ok (w w' : Runtime) name r i t :
  newTable w name r i = (w', Ok t) ->
  t = mkTable r i (defaultTableName name) /\
  createTable (storage w) (defaultTableName name) = Ok (storage w') /\
  purgers w' = if (time_Second <? r)%Z then t :: purgers w else purgers w.
Proof.
  unfold newTable.
  destruct (createTable (storage w) (defaultTableName name)) as [db |]; [| done].
  destruct (time_Second <? r)%Z; intros [= <- <-]; done.
Qed.

Lemma Bucket_ok (d d' : database) (w w' : Runtime) name opts t :
  Bucket d w name opts = (d', w', Ok t) ->
  exists r i,
    newTable w name r i = (w', Ok t) /\
    retention d' = r /\
    ((r = 0 /\ i = 0) \/
     (r = retention d /\ d' = d /\ i = Z.max (retention d ÷ 5) time_Second)).
Proof.
  unfold Bucket, applyOpts. destruct (disablePurge _).
  - destruct (newTable w name (retention (mkDatabase 0)) 0) as [w1 r1] eqn:Hnew.
    intros [= <- <- ->]. exists 0, 0. split; [done |]. split; [done |]. by left.
  - destruct (newTable w name (retention d) _) as [w1 r1] eqn:Hnew.
    intros [= <- <- ->]. eexists _, _. split; [exact Hnew |]. split; [done |].
    right. split; [done |]. split; [done |].
    destruct (Z.ltb_spec (retention d ÷ 5) time_Second); lia.
Qed.
End Store.

(** C7. Creating a bucket from a store whose table name the engine accepts:
    when the store's retention is at most one second, or purge is disabled
    by an option, no purge task is started; otherwise a purge task is
    started for the bucket, whose retention is the store's and whose purge
    interval is one fifth of that retention (integer division on
    nanoseconds) and at least one second.  [newTable] itself starts the task
    exactly when the retention it is given exceeds one second. *)
Theorem purge_task_above_one_second {lib : GoLib} {engine : SqlEngine}
    (d : database) (w : Runtime) (name : string) (opts : list OpOption) (op : Op) :
  ddl_accepts (defaultTableName name) = true ->
  applyOpts (mkOp false) opts = Ok op ->
  (exists d' w' t,
     Bucket d w name opts = (d', w', Ok t) /\
     (retention d <= time_Second \/ disablePurge op = true ->
        purgers w' = purgers w) /\
     (time_Second < retention d -> disablePurge op = false ->
        purgers w' = t :: purgers w /\
        t_retention t = retention d /\
        t_purgeInterval t = Z.max (retention d ÷ 5) time_Second /\
        time_Second <= t_purgeInterval t)) /\
  (forall r i,
     exists w' t,
       newTable w name r i = (w', Ok t) /\
       t_retention t = r /\ t_purgeInterval t = i /\
       (r <= time_Second -> purgers w' = purgers w) /\
       (time_Second < r -> purgers w' = t :: purgers w)).
Proof.
  intros Hddl Hop.
  assert (Hnew : forall r i,
     exists w' t,
       newTable w name r i = (w', Ok t) /\
       t_retention t = r /\ t_purgeInterval t = i /\
       (r <= time_Second -> purgers w' = purgers w) /\
       (time_Second < r -> purgers w' = t :: purgers w)).
  { intros r i. unfold newTable.
    destruct (createTable_accepts (storage w) _ Hddl) as (db' & ->).
    destruct (Z.ltb_spec time_Second r) as [Hlt | Hle].
    - eexists _, _. split; [reflexivity |]. simpl.
      split; [done |]. split; [done |]. split; [intros; lia | done].
    - eexists _, _. split; [reflexivity |]. simpl.
      split; [done |]. split; [done |]. split; [done | intros; lia]. }
  split; [| exact Hnew].
  unfold Bucket. rewrite Hop. destruct (disablePurge op) eqn:Hdis.
  - destruct (Hnew (retention (mkDatabase 0)) 0) as (w' & t & -> & Hr & Hi & Hoff & _).
    exists (mkDatabase 0), w', t. split; [done |]. split.
    + intros _. apply Hoff. simpl. unfold time_Second. lia.
    + intros _ Hcontra. discriminate Hcontra.
  - destruct (Hnew (retention d)
                (if (retention d ÷ 5 <? time_Second)%Z then time_Second
                 else retention d ÷ 5))
      as (w' & t & -> & Hr & Hi & Hoff & Hon).
    exists d, w', t. split; [done |]. split.
    + intros [Hle | Hcontra]; [by apply Hoff | discriminate Hcontra].
    + intros Hlt _. split; [by apply Hon |]. split; [done |].
      rewrite Hi. destruct (Z.ltb_spec (retention d ÷ 5) time_Second); lia.
Qed.

Lemma purge_task_above_one_second_witness :
  exists d' w' t,
    @Bucket stubLib stubEngine (New (10 * second)) (mkRuntime ∅ []) "cpu" []
      = (d', w', Ok t) /\
    purgers w' = [t] /\
    t_retention t = 10 * second /\
    t_purgeInterval t = 2 * second.
Proof.
  destruct (proj1 (@purge_task_above_one_second stubLib stubEngine
                     (New (10 * second)) (mkRuntime ∅ []) "cpu" [] (mkOp false)
                     eq_refl eq_refl))
    as (d' & w' & t & HB & _ & Hon).
  exists d', w', t. split; [exact HB |].
  destruct (Hon ltac:(vm_compute; reflexivity) eq_refl) as (Hp & Hr & Hi & _).
  split; [exact Hp |]. split; [exact Hr |]. rewrite Hi. vm_compute. reflexivity.
Defined.

(** C6 fails on the code.  A bucket requested with the disable-purge option
    sets the store's own retention to zero; a store of ten seconds then
    hands the next bucket a zero retention, a one-second interval and no
    purge task, where it would have handed ten seconds, two seconds and a
    running task.  [LoadBucketWithNoPurge] creates the same kind of bucket
    and leaves the store as it was. *)
Theorem disablePurge_overwrites_store_retention :
  (forall (lib : GoLib) (engine : SqlEngine) d w name,
     fst (fst (Bucket d w name [WithDisablePurge])) = mkDatabase 0 /\
     fst (fst (LoadBucketWithNoPurge d w name)) = d) /\
  (let d0 := New (10 * second) in
   let w0 := mkRuntime ∅ [] in
   let '(d1, w1, _) := @Bucket stubLib stubEngine d0 w0 "quiet" [WithDisablePurge] in
   let '(_, w2, after) := @Bucket stubLib stubEngine d1 w1 "cpu" [] in
   let '(_, w2', direct) := @Bucket stubLib stubEngine d0 w1 "cpu" [] in
   retention d1 = 0 /\
   after = Ok (mkTable 0 second "components_cpu_events_v0_4_0") /\
   purgers w2 = [] /\
   direct = Ok (mkTable (10 * second) (2 * second) "components_cpu_events_v0_4_0") /\
   purgers w2' = [mkTable (10 * second) (2 * second) "components_cpu_events_v0_4_0"]).
Proof.
  split.
  - intros lib engine d w name. split.
    + unfold Bucket. simpl. by destruct (newTable w name 0 0).
    + unfold LoadBucketWithNoPurge. by destruct (newTable w name 0 0).
  - vm_compute. repeat split.
Qed.

(** C10. The derivation of the physical table name is not injective:
    "Test" and "test", and "my bucket", "my-bucket" and "my_bucket", are
    distinct logical names with one physical name each.  Whenever two
    logical names derive the same physical name, the buckets that one store
    hands out for them carry the same table name, the second request
    creates no table, and every read, write and purge through one handle is
    the same operation as through the other. *)
Theorem defaultTableName_collisions {lib : GoLib} {engine : SqlEngine} :
  ("Test" <> "test" /\ defaultTableName "Test" = defaultTableName "test") /\
  ("my bucket" <> "my-bucket" /\
   defaultTableName "my bucket" = defaultTableName "my-bucket") /\
  ("my bucket" <> "my_bucket" /\
   defaultTableName "my bucket" = defaultTableName "my_bucket") /\
  (forall d w n1 n2 opts1 opts2 d1 w1 t1 d2 w2 t2,
     defaultTableName n1 = defaultTableName n2 ->
     Bucket d w n1 opts1 = (d1, w1, Ok t1) ->
     Bucket d1 w1 n2 opts2 = (d2, w2, Ok t2) ->
     table_Name t1 = table_Name t2 /\
     storage w2 = storage w1 /\
     forall db,
       (forall ev, table_Insert t1 db ev = table_Insert t2 db ev) /\
       (forall probe, table_Find t1 db probe = table_Find t2 db probe) /\
       (forall since, table_Get t1 db since = table_Get t2 db since) /\
       table_Latest t1 db = table_Latest t2 db /\
       (forall before, table_Purge t1 db before = table_Purge t2 db before)).
Proof.
  split; [split; [discriminate | reflexivity] |].
  split; [split; [discriminate | reflexivity] |].
  split; [split; [discriminate | reflexivity] |].
  intros d w n1 n2 opts1 opts2 d1 w1 t1 d2 w2 t2 Hname HB1 HB2.
  apply Bucket_ok in HB1 as (r1 & i1 & Hnew1 & _).
  apply Bucket_ok in HB2 as (r2 & i2 & Hnew2 & _).
  apply newTable_ok in Hnew1 as (-> & Hc1 & _).
  apply newTable_ok in Hnew2 as (-> & Hc2 & _).
  apply createTable_ok in Hc1 as (_ & Hsome & _).
  apply createTable_ok in Hc2 as (_ & _ & Hsame).
  assert (Ht : table_Name (mkTable r1 i1 (defaultTableName n1)) =
               table_Name (mkTable r2 i2 (defaultTableName n2)))
    by (simpl; exact Hname).
  split; [exact Ht |].
  split; [apply Hsame; by rewrite <- Hname |].
  intros db.
  unfold table_Insert, table_Find, table_Get, table_Latest, table_Purge.
  simpl. rewrite Hname. done.
Qed.

Lemma defaultTableName_collisions_witness :
  exists d1 w1 t1 d2 w2 t2,
    @Bucket stubLib stubEngine (New 0) (mkRuntime ∅ []) "Test" [] = (d1, w1, Ok t1) /\
    @Bucket stubLib stubEngine d1 w1 "test" [] = (d2, w2, Ok t2) /\
    table_Name t1 = table_Name t2 /\
    storage w2 = storage w1.
Proof.
  exists (New 0),
         (mkRuntime {[ "components_test_events_v0_4_0" := [] ]} []),
         (mkTable 0 second "components_test_events_v0_4_0"),
         (New 0),
         (mkRuntime {[ "components_test_events_v0_4_0" := [] ]} []),
         (mkTable 0 second "components_test_events_v0_4_0").
  assert (HB1 : @Bucket stubLib stubEngine (New 0) (mkRuntime ∅ []) "Test" []
                = (New 0, mkRuntime {[ "components_test_events_v0_4_0" := [] ]} [],
                   Ok (mkTable 0 second "components_test_events_v0_4_0")))
    by (vm_compute; reflexivity).
  assert (HB2 : @Bucket stubLib stubEngine (New 0)
                  (mkRuntime {[ "components_test_events_v0_4_0" := [] ]} []) "test" []
                = (New 0, mkRuntime {[ "components_test_events_v0_4_0" := [] ]} [],
                   Ok (mkTable 0 second "components_test_events_v0_4_0")))
    by (vm_compute; reflexivity).
  split; [exact HB1 |]. split; [exact HB2 |].
  destruct (proj2 (proj2 (proj2 (@defaultTableName_collisions stubLib stubEngine)))
              (New 0) (mkRuntime ∅ []) "Test" "test" [] [] _ _ _ _ _ _
              eq_refl HB1 HB2) as (Hn & Hs & _).
  split; [exact Hn | exact Hs].
Defined.

(** ** Syncer *)

(** C8. One [sync] makes exactly one [Scrape] call.  If the scrape fails,
    [sync] returns that very error, makes no call on the store and leaves
    the store as it was.  If the scrape succeeds, [sync] makes exactly one
    [Record] call, carrying all scraped metrics, and returns whatever that
    call returned, its error included. *)
Theorem sync_scrape_then_record {M S T : Type}
    {scr : Syncer.Scraper M S} {sto : Syncer.Store M T} (s : Syncer.syncer M S T) :
  exists made : list (Syncer.call M),
    Syncer.calls (fst (Syncer.sync s)) = (Syncer.calls s ++ made)%list /\
    length (List.filter Syncer.isScrape made) = 1%nat /\
    Syncer.scraper (fst (Syncer.sync s)) = fst (Syncer.Scrape (Syncer.scraper s)) /\
    (forall e,
       snd (Syncer.Scrape (Syncer.scraper s)) = Err e ->
       snd (Syncer.sync s) = Some e /\
       Syncer.store (fst (Syncer.sync s)) = Syncer.store s /\
       List.filter Syncer.isRecord made = []) /\
    (forall ms,
       snd (Syncer.Scrape (Syncer.scraper s)) = Ok ms ->
       List.filter Syncer.isRecord made = [Syncer.CallRecord ms] /\
       made = [Syncer.CallScrape; Syncer.CallRecord ms] /\
       Syncer.store (fst (Syncer.sync s)) =
         fst (Syncer.Store_Record (Syncer.store s) ms) /\
       snd (Syncer.sync s) = snd (Syncer.Store_Record (Syncer.store s) ms)).
Proof.
  unfold Syncer.sync.
  destruct (Syncer.Scrape (Syncer.scraper s)) as [sc [ms | e]]; simpl.
  - destruct (Syncer.Store_Record (Syncer.store s) ms) as [st err] eqn:Hrec. simpl.
    exists [Syncer.CallScrape; Syncer.CallRecord ms].
    split; [by rewrite <- app_assoc |]. split; [done |]. split; [done |].
    split; [intros e [=] |]. intros ms' [= <-]. rewrite Hrec. done.
  - exists [Syncer.CallScrape].
    split; [done |]. split; [done |]. split; [done |].
    split; [| intros ms [=]]. by intros e' [= <-].
Qed.

Lemma sync_scrape_then_record_witness :
  snd (Syncer.sync scrapeFails) = Some (ErrNew "scrape error") /\
  Syncer.store (fst (Syncer.sync scrapeFails)) = Syncer.store scrapeFails.
Proof.
  destruct (sync_scrape_then_record scrapeFails) as (made & _ & _ & _ & Herr & _).
  destruct (Herr (ErrNew "scrape error") eq_refl) as (Hret & Hstore & _).
  split; [exact Hret | exact Hstore].
Defined.

(** The three cases of [TestSync]. *)
Example TestSync_cases :
  (snd (Syncer.sync syncWorks) = None /\
   Syncer.scrapes (Syncer.scraper (fst (Syncer.sync syncWorks))) = 1 /\
   Syncer.records (Syncer.store (fst (Syncer.sync syncWorks))) = Syncer.testMetrics) /\
  (snd (Syncer.sync scrapeFails) = Some (ErrNew "scrape error") /\
   Syncer.scrapes (Syncer.scraper (fst (Syncer.sync scrapeFails))) = 1 /\
   Syncer.records (Syncer.store (fst (Syncer.sync scrapeFails))) = []) /\
  (snd (Syncer.sync recordFails) = Some (ErrNew "store error") /\
   Syncer.scrapes (Syncer.scraper (fst (Syncer.sync recordFails))) = 1 /\
   Syncer.records (Syncer.store (fst (Syncer.sync recordFails))) = []).
Proof. repeat split. Qed.

(** * Further properties of the event store *)

(** ** Latest *)

(** [Latest] returns nil exactly on an empty bucket.  On a bucket with rows
    it reads one row whose timestamp is the largest in the table, and
    returns the decoding of that row, event or error; so the timestamp of a
    returned event is at least that of every stored row. *)
Theorem lastEvent_newest {lib : GoLib} {engine : SqlEngine}
    (db : DB) (tableName : string) (rows : list Row) :
  db !! tableName = Some rows ->
  (lastEvent db tableName = Ok None <-> rows = []) /\
  (rows <> [] ->
     exists r,
       In r rows /\
       (forall r', In r' rows -> timestamp r' <= timestamp r) /\
       lastEvent db tableName =
         match scanRows r with Ok e => Ok (Some e) | Err e => Err e end) /\
  (forall e,
     lastEvent db tableName = Ok (Some e) ->
     forall r', In r' rows -> timestamp r' <= Unix (EvTime e)).
Proof.
  intros Hdb. rewrite (lastEvent_eq db tableName rows Hdb).
  destruct (head (order_by_timestamp_desc rows)) as [r |] eqn:Hhd.
  - destruct (newest_row_first rows r Hhd) as [Hin Hmax].
    assert (Hne : rows <> []) by (intros ->; done).
    split.
    + split; [| done]. by destruct (scanRows r).
    + split.
      * intros _. exists r. by repeat split.
      * intros e He r' Hr'. destruct (scanRows r) as [e0 |] eqn:Hscan; [| done].
        injection He as ->. destruct (scanRows_fields r e Hscan) as (-> & _).
        simpl. by apply Hmax.
  - assert (Hnil : rows = []).
    { apply order_nil_iff. by destruct (order_by_timestamp_desc rows). }
    split; [done |]. split; [done |]. intros e [=].
Qed.

Lemma lastEvent_newest_witness :
  @lastEvent stubLib stubEngine
     {[ "t" := [row_at 4 "edge"; row_at 7 "new"; row_at 6 "mid"] ]} "t"
    <> Ok None.
Proof.
  intros Hnone.
  assert (Hdb : ({[ "t" := [row_at 4 "edge"; row_at 7 "new"; row_at 6 "mid"] ]} : DB)
                  !! "t"
                = Some [row_at 4 "edge"; row_at 7 "new"; row_at 6 "mid"])
    by reflexivity.
  pose proof (proj1 (proj1 (@lastEvent_newest stubLib stubEngine _ "t" _ Hdb)) Hnone)
    as Hrows.
  discriminate Hrows.
Defined.

(** When every stored row is newer than [since], a successful [Get] and
    [Latest] agree: [Latest] returns the first event of [Get], and nil when
    [Get] returns nil. *)
Theorem lastEvent_heads_getEvents {lib : GoLib} {engine : SqlEngine}
    (db : DB) (tableName : string) (rows : list Row) (since : Time)
    (res : option (list Event)) :
  db !! tableName = Some rows ->
  Forall (fun r => Unix since < timestamp r) rows ->
  getEvents db tableName since = Ok res ->
  lastEvent db tableName =
    Ok (match res with Some events => head events | None => None end).
Proof.
  intros Hdb Hall Hget.
  rewrite (getEvents_eq db tableName rows since Hdb) in Hget.
  rewrite (lastEvent_eq db tableName rows Hdb).
  rewrite filter_all in Hget
    by (eapply Forall_impl; [exact Hall | intros r Hr; by apply Z.ltb_lt]).
  destruct (getEvents_loop (order_by_timestamp_desc rows) []) as [events |] eqn:Hloop;
    [| done].
  apply getEvents_loop_sound in Hloop as (decoded & -> & HF). simpl in *.
  destruct HF as [| r e sel dec He HF]; simpl in *.
  - by injection Hget as <-.
  - injection Hget as <-. by rewrite He.
Qed.

Lemma lastEvent_heads_getEvents_witness :
  @lastEvent stubLib stubEngine
     {[ "t" := [row_at 4 "edge"; row_at 7 "new"; row_at 6 "mid"] ]} "t"
  = Ok (Some (mkEvent (time_Unix 7 0) "new" "Info" "" None None)).
Proof.
  assert (Hdb : ({[ "t" := [row_at 4 "edge"; row_at 7 "new"; row_at 6 "mid"] ]} : DB)
                  !! "t"
                = Some [row_at 4 "edge"; row_at 7 "new"; row_at 6 "mid"])
    by reflexivity.
  apply (@lastEvent_heads_getEvents stubLib stubEngine _ "t" _ (time_Unix 0 0)
           (Some [mkEvent (time_Unix 7 0) "new" "Info" "" None None;
                  mkEvent (time_Unix 6 0) "mid" "Info" "" None None;
                  mkEvent (time_Unix 4 0) "edge" "Info" "" None None]) Hdb).
  - repeat constructor.
  - vm_compute. reflexivity.
Defined.

(** ** Insert, then read *)

Section InsertRead.
Context {lib : GoLib} {engine : SqlEngine}.

Lemma NULLIF_object (js : string) :
  String.prefix "{" js = true -> NULLIF js = Some js.
Proof. destruct js as [| c js]; [done |]. intros _. reflexivity. Qed.

Lemma NULLIF_message (probe : Event) :
  Message probe <> "" -> NULLIF (Message probe) = Some (Message probe).
Proof. intros Hne. unfold NULLIF. by destruct (String.eqb_spec (Message probe) ""). Qed.

Lemma insertEvent_round_trip (db : DB) tableName rows ev :
  db !! tableName = Some rows -> round_trips ev ->
  exists r,
    insertEvent db tableName ev = Ok (<[tableName := (rows ++ [r])%list]> db) /\
    scanRows r = Ok (as_stored ev) /\
    candidate ev r.
Proof.
  intros Hdb [Hx Hs]. unfold insertEvent, candidate, as_stored. rewrite Hdb.
  destruct (DeprecatedExtraInfo ev) as [m |] eqn:Hm;
    destruct (DeprecatedSuggestedActions ev) as [sa |] eqn:Hsa;
    try (destruct (Hx m eq_refl) as (jx & Hjx & Hpx & Hux); rewrite Hjx);
    try (destruct (Hs sa eq_refl) as (js & Hjs & Hps & Hus); rewrite Hjs);
    (eexists; split; [reflexivity |]);
    unfold scanRows;
    cbn [timestamp name type message extra_info suggested_actions];
    try change (NULLIF "") with (@None string);
    rewrite NULLIF_round_trip, ?NULLIF_object by done;
    rewrite ?unmarshalIfValid_object by done;
    rewrite ?Hux, ?Hus;
    cbn [unmarshalIfValid];
    (split; [reflexivity |]);
    (split; [done |]); (split; [done |]); (split; [done |]);
    (split; [apply NULLIF_message |]);
    intros sa' Hsa'; try discriminate Hsa';
    injection Hsa' as <-; exists js; (split; [exact Hjs | reflexivity]).
Qed.

Lemma findEvent_loop_decodable (p : Row -> bool) (rows : list Row) (probe : Event) :
  Forall (fun r => p r = true -> exists e, scanRows r = Ok e) rows ->
  exists res, findEvent_loop (List.filter p rows) probe = Ok res.
Proof.
  induction 1 as [| r rows Hr _ [res IH]]; simpl; [by eexists |].
  destruct (p r) eqn:Hp; [| by exists res]. simpl.
  destruct (Hr eq_refl) as (e & ->).
  destruct (compareEvent e probe); by eexists.
Qed.

Lemma compareEvent_as_stored (ev : Event) : compareEvent (as_stored ev) ev = true.
Proof. by apply compareEvent_entries. Qed.

Lemma decoded_of_row (selected : list Row) (decoded : list Event) (r : Row) :
  Forall2 (fun r e => scanRows r = Ok e) selected decoded -> In r selected ->
  exists e, In e decoded /\ scanRows r = Ok e.
Proof.
  induction 1 as [| r0 e0 sel dec He _ IH]; [done |].
  intros [<- | Hin].
  - exists e0. split; [by left | done].
  - destruct (IH Hin) as (e & ? & ?). exists e. split; [by right | done].
Qed.

Lemma filter_absorb {A} (f g : A -> bool) (l : list A) :
  (forall x, f x = true -> g x = true) ->
  List.filter f (List.filter g l) = List.filter f l.
Proof.
  intros Hfg. induction l as [| x l IH]; simpl; [done |].
  destruct (g x) eqn:Hg; simpl.
  - destruct (f x); by rewrite IH.
  - destruct (f x) eqn:Hf; [| done]. rewrite (Hfg x Hf) in Hg. done.
Qed.
End InsertRead.

(** Insert and read back.  When the JSON library reads back what it writes
    for the event's payloads, [Insert] succeeds on an existing bucket,
    appends exactly one row after the rows already stored, leaves every
    other table alone, and that row decodes to the inserted event with its
    time cut to whole seconds: name, type, message, ExtraInfo and
    SuggestedActions come back unchanged. *)
Theorem insertEvent_reads_back {lib : GoLib} {engine : SqlEngine}
    (db : DB) (tableName : string) (rows : list Row) (ev : Event) :
  db !! tableName = Some rows ->
  round_trips ev ->
  exists db' r,
    insertEvent db tableName ev = Ok db' /\
    db' !! tableName = Some (rows ++ [r])%list /\
    (forall other, other <> tableName -> db' !! other = db !! other) /\
    scanRows r = Ok (as_stored ev) /\
    Unix (EvTime (as_stored ev)) = Unix (EvTime ev).
Proof.
  intros Hdb Hrt.
  destruct (insertEvent_round_trip db tableName rows ev Hdb Hrt) as (r & Hins & Hscan & _).
  exists (<[tableName := (rows ++ [r])%list]> db), r.
  split; [done |]. split; [by rewrite lookup_insert_eq |].
  split; [intros other Hne; by rewrite lookup_insert_ne |]. done.
Qed.

Lemma stub_round_trips_a_b :
  @round_trips stubLib (event_extra (mkTime 5 250) (Some map_a_b)).
Proof.
  split.
  - intros m [= <-]. exists doc_a_b. repeat split.
  - intros sa Hsa. discriminate Hsa.
Qed.

Lemma insertEvent_reads_back_witness :
  exists (db' : DB) r,
    @insertEvent stubLib {[ "t" := [] ]} "t" (event_extra (mkTime 5 250) (Some map_a_b))
      = Ok db' /\
    db' !! "t" = Some [r] /\
    @scanRows stubLib r = Ok (event_extra (time_Unix 5 0) (Some map_a_b)).
Proof.
  assert (Hdb : ({[ "t" := [] ]} : DB) !! "t" = Some []) by reflexivity.
  destruct (@insertEvent_reads_back stubLib stubEngine _ "t" _
              (event_extra (mkTime 5 250) (Some map_a_b)) Hdb stub_round_trips_a_b)
    as (db' & r & Hins & Hrows & _ & Hscan & _).
  exists db', r. split; [exact Hins |]. split; [exact Hrows | exact Hscan].
Defined.

Lemma insertEvent_then_findEvent {lib : GoLib}
    (db : DB) (tableName : string) (rows : list Row) (ev : Event) :
  db !! tableName = Some rows ->
  round_trips ev ->
  Forall (fun r => candidate ev r -> exists e, scanRows r = Ok e) rows ->
  exists r e,
    insertEvent db tableName ev = Ok (<[tableName := (rows ++ [r])%list]> db) /\
    findEvent (<[tableName := (rows ++ [r])%list]> db) tableName ev = Ok (Some e) /\
    extraInfoEqual e ev /\
    Unix (EvTime e) = Unix (EvTime ev) /\ Name e = Name ev /\ Type_ e = Type_ ev /\
    (findEvent db tableName ev = Ok None -> e = as_stored ev).
Proof.
  intros Hdb Hrt Hdec.
  destruct (insertEvent_round_trip db tableName rows ev Hdb Hrt) as (r & Hins & Hscan & Hc).
  pose proof (candidate_serializable ev r Hc) as Hser.
  set (db' := <[tableName := (rows ++ [r])%list]> db).
  assert (Hdb' : db' !! tableName = Some (rows ++ [r])%list)
    by (unfold db'; by rewrite lookup_insert_eq).
  destruct (findEvent_eq db tableName rows ev Hdb Hser) as (p & Hp & Hfind).
  destruct (findEvent_eq db' tableName _ ev Hdb' Hser) as (p' & Hp' & Hfind').
  assert (Hpp : forall x, p' x = p x).
  { intros x. apply eq_true_iff_eq. by rewrite Hp, Hp'. }
  rewrite (filter_ext p' p Hpp) in Hfind'.
  assert (Hdec' : Forall (fun r => p r = true -> exists e, scanRows r = Ok e) rows).
  { eapply Forall_impl; [exact Hdec |]. intros x Hx Hpx. apply Hx. by apply Hp. }
  destruct (findEvent_loop_decodable p rows ev Hdec') as ([e0 |] & Hloop).
  - pose proof Hloop as Hfound. apply findEvent_loop_found in Hfound.
    destruct Hfound as (pre & r0 & post & -> & Hpre & Hpr0 & He0 & Hcmp).
    exists r, e0. split; [done |]. split.
    + fold db'. rewrite Hfind', <- app_assoc. simpl. apply findEvent_loop_found.
      by exists pre, r0, (post ++ [r])%list.
    + split; [by apply compareEvent_spec |].
      apply Hp in Hpr0. destruct Hpr0 as (Hts & Hn & Ht & _).
      destruct (scanRows_fields r0 e0 He0) as (-> & -> & -> & _).
      repeat split; try done. rewrite Hfind, Hloop. done.
  - exists r, (as_stored ev). split; [done |]. split.
    + fold db'. rewrite Hfind'. apply findEvent_loop_found.
      exists rows, r, []. split; [done |].
      split; [by apply findEvent_loop_none |].
      split; [by apply Hp |]. split; [done |]. apply compareEvent_as_stored.
    + split; [apply compareEvent_spec, compareEvent_as_stored |]. done.
Qed.

(** Find after Insert.  On a bucket whose rows selected for the event
    decode, and with a JSON library that reads back what it writes, an
    event that has just been inserted is always found: [Find] with the same
    event returns an event, never nil, with the same unix second, name and
    type and an equal ExtraInfo; when [Find] returned nil before the insert,
    the event found is the inserted one as stored. *)
Theorem findEvent_after_insertEvent {lib : GoLib} {engine : SqlEngine}
    (db : DB) (tableName : string) (rows : list Row) (ev : Event) :
  db !! tableName = Some rows ->
  round_trips ev ->
  Forall (fun r => candidate ev r -> exists e, scanRows r = Ok e) rows ->
  exists db' e,
    insertEvent db tableName ev = Ok db' /\
    findEvent db' tableName ev = Ok (Some e) /\
    extraInfoEqual e ev /\
    Unix (EvTime e) = Unix (EvTime ev) /\ Name e = Name ev /\ Type_ e = Type_ ev /\
    (findEvent db tableName ev = Ok None -> e = as_stored ev).
Proof.
  intros Hdb Hrt Hdec.
  destruct (insertEvent_then_findEvent db tableName rows ev Hdb Hrt Hdec)
    as (r & e & Hins & Hfind & Hx & Ht & Hn & Hty & Hnew).
  exists (<[tableName := (rows ++ [r])%list]> db), e.
  split; [exact Hins |]. split; [exact Hfind |]. split; [exact Hx |].
  split; [exact Ht |]. split; [exact Hn |]. split; [exact Hty | exact Hnew].
Qed.

Lemma findEvent_after_insertEvent_witness :
  exists (db' : DB) e,
    @insertEvent stubLib {[ "t" := [row_extra 5 (Some doc_empty)] ]} "t"
       (event_extra (mkTime 5 250) (Some map_a_b)) = Ok db' /\
    @findEvent stubLib db' "t" (event_extra (mkTime 5 250) (Some map_a_b)) = Ok (Some e).
Proof.
  assert (Hdb : ({[ "t" := [row_extra 5 (Some doc_empty)] ]} : DB) !! "t"
                = Some [row_extra 5 (Some doc_empty)]) by reflexivity.
  destruct (@findEvent_after_insertEvent stubLib stubEngine _ "t" _
              (event_extra (mkTime 5 250) (Some map_a_b)) Hdb stub_round_trips_a_b)
    as (db' & e & Hins & Hfind & _).
  - constructor; [| constructor]. intros _. eexists. reflexivity.
  - exists db', e. split; [exact Hins | exact Hfind].
Defined.

(** Get after Insert.  Under the same conditions, an inserted event whose
    unix second is after [since] is among the events that [Get] returns
    next, as stored; and [Latest] then returns an event that is at least as
    new as the inserted one. *)
Theorem getEvents_after_insertEvent {lib : GoLib} {engine : SqlEngine}
    (db : DB) (tableName : string) (rows : list Row) (ev : Event) (since : Time) :
  db !! tableName = Some rows ->
  round_trips ev ->
  Forall (fun r => exists e, scanRows r = Ok e) rows ->
  Unix since < Unix (EvTime ev) ->
  exists db' events latest,
    insertEvent db tableName ev = Ok db' /\
    getEvents db' tableName since = Ok (Some events) /\
    In (as_stored ev) events /\
    lastEvent db' tableName = Ok (Some latest) /\
    Unix (EvTime ev) <= Unix (EvTime latest).
Proof.
  intros Hdb Hrt Hdec Hsince.
  destruct (insertEvent_round_trip db tableName rows ev Hdb Hrt) as (r & Hins & Hscan & Hc).
  set (db' := <[tableName := (rows ++ [r])%list]> db).
  assert (Hdb' : db' !! tableName = Some (rows ++ [r])%list)
    by (unfold db'; by rewrite lookup_insert_eq).
  assert (Hdec' : Forall (fun r => exists e, scanRows r = Ok e) (rows ++ [r])%list).
  { apply Forall_app. split; [done |]. constructor; [by eexists | constructor]. }
  assert (Hts : timestamp r = Unix (EvTime ev)) by (by destruct Hc).
  (* Get *)
  set (selected := order_by_timestamp_desc
         (List.filter (fun r => (Unix since <? timestamp r)%Z) (rows ++ [r])%list)).
  assert (Hsel : In r selected).
  { apply query_since_rows. split; [| lia]. apply in_or_app. right. by left. }
  assert (Hseldec : Forall (fun r => exists e, scanRows r = Ok e) selected).
  { rewrite List.Forall_forall in *. intros x Hx.
    apply query_since_rows in Hx as [Hx _]. by apply Hdec'. }
  destruct (getEvents_loop_ok selected [] Hseldec) as (events & HF & Hloop).
  destruct (decoded_of_row selected events r HF Hsel) as (e & Hin & He).
  assert (e = as_stored ev) by congruence. subst e.
  (* Latest *)
  assert (Hne : (rows ++ [r])%list <> []) by (by destruct rows).
  destruct (head (order_by_timestamp_desc (rows ++ [r])%list)) as [top |] eqn:Hhd.
  2:{ exfalso. apply Hne, order_nil_iff.
      by destruct (order_by_timestamp_desc (rows ++ [r])%list). }
  destruct (newest_row_first _ top Hhd) as [Htop Hmax].
  rewrite List.Forall_forall in Hdec'. destruct (Hdec' top Htop) as (latest & Hlatest).
  exists db', events, latest.
  split; [done |]. split.
  { rewrite (getEvents_eq db' tableName _ since Hdb'). fold selected.
    rewrite Hloop. simpl. by destruct events. }
  split; [done |]. split.
  { by rewrite (lastEvent_eq db' tableName _ Hdb'), Hhd, Hlatest. }
  destruct (scanRows_fields top latest Hlatest) as (-> & _). simpl.
  rewrite <- Hts. apply Hmax. apply in_or_app. right. by left.
Qed.

Lemma getEvents_after_insertEvent_witness :
  exists (db' : DB) events,
    @insertEvent stubLib {[ "t" := [row_extra 9 (Some doc_empty)] ]} "t"
       (event_extra (mkTime 5 250) (Some map_a_b)) = Ok db' /\
    @getEvents stubLib stubEngine db' "t" (time_Unix 4 0) = Ok (Some events) /\
    In (event_extra (time_Unix 5 0) (Some map_a_b)) events.
Proof.
  assert (Hdb : ({[ "t" := [row_extra 9 (Some doc_empty)] ]} : DB) !! "t"
                = Some [row_extra 9 (Some doc_empty)]) by reflexivity.
  destruct (@getEvents_after_insertEvent stubLib stubEngine _ "t" _
              (event_extra (mkTime 5 250) (Some map_a_b)) (time_Unix 4 0)
              Hdb stub_round_trips_a_b)
    as (db' & events & latest & Hins & Hget & Hin & _).
  - constructor; [| constructor]. eexists. reflexivity.
  - simpl. lia.
  - exists db', events. split; [exact Hins |]. split; [exact Hget | exact Hin].
Defined.

(** ** Purge, then read *)

(** After [Purge] with a cutoff, no read returns an event older than the
    cutoff: every event of a later [Get], the event of a later [Find] and
    the event of a later [Latest] have a unix second at or after it. *)
Theorem no_read_before_cutoff {lib : GoLib} {engine : SqlEngine}
    (db db' : DB) (tableName : string) (cutoff n : Z) :
  purgeEvents db tableName cutoff = Ok (db', n) ->
  (forall since events e,
     getEvents db' tableName since = Ok (Some events) -> In e events ->
     cutoff <= Unix (EvTime e)) /\
  (forall probe e,
     findEvent db' tableName probe = Ok (Some e) -> cutoff <= Unix (EvTime e)) /\
  (forall e,
     lastEvent db' tableName = Ok (Some e) -> cutoff <= Unix (EvTime e)).
Proof.
  intros Hpurge.
  destruct (db !! tableName) as [rows |] eqn:Hdb;
    [| unfold purgeEvents in Hpurge; by rewrite Hdb in Hpurge].
  rewrite (purgeEvents_eq db tableName rows cutoff Hdb) in Hpurge.
  injection Hpurge as <- _.
  set (kept := List.filter (fun r => (cutoff <=? timestamp r)%Z) rows).
  assert (Hdb' : (<[tableName := kept]> db) !! tableName = Some kept)
    by (by rewrite lookup_insert_eq).
  assert (Hkept : forall r e, In r kept -> scanRows r = Ok e -> cutoff <= Unix (EvTime e)).
  { intros r e Hin He. apply filter_In in Hin as [_ Hle]. apply Z.leb_le in Hle.
    destruct (scanRows_fields r e He) as (-> & _). done. }
  split; [| split].
  - intros since events e Hget Hin.
    destruct (getEvents_from_rows _ _ _ _ _ _ Hdb' Hget Hin) as (r & Hr & He). eauto.
  - intros probe e Hfind.
    destruct (findEvent_from_rows _ _ _ _ _ Hdb' Hfind) as (r & Hr & He). eauto.
  - intros e Hlast.
    destruct (lastEvent_from_rows _ _ _ _ Hdb' Hlast) as (r & Hr & He). eauto.
Qed.

Lemma no_read_before_cutoff_witness :
  2 <= Unix (EvTime (mkEvent (time_Unix 3 0) "new" "Info" "" None None)).
Proof.
  assert (Hpurge : purgeEvents {[ "t" := [row_at 1 "old"; row_at 2 "edge"; row_at 3 "new"] ]}
                     "t" 2
                   = Ok ({[ "t" := [row_at 2 "edge"; row_at 3 "new"] ]}, 1))
    by (vm_compute; reflexivity).
  apply (proj2 (proj2 (@no_read_before_cutoff stubLib stubEngine _ _ "t" 2 1 Hpurge))).
  vm_compute. reflexivity.
Defined.

(** A purge whose cutoff does not reach past [since] is invisible to [Get]:
    with cutoff <= since + 1, [Get] from [since] returns the same result
    after the purge as before it. *)
Theorem getEvents_unaffected_by_older_purge {lib : GoLib} {engine : SqlEngine}
    (db db' : DB) (tableName : string) (cutoff n : Z) (since : Time) :
  purgeEvents db tableName cutoff = Ok (db', n) ->
  cutoff <= Unix since + 1 ->
  getEvents db' tableName since = getEvents db tableName since.
Proof.
  intros Hpurge Hle.
  destruct (db !! tableName) as [rows |] eqn:Hdb;
    [| unfold purgeEvents in Hpurge; by rewrite Hdb in Hpurge].
  rewrite (purgeEvents_eq db tableName rows cutoff Hdb) in Hpurge.
  injection Hpurge as <- _.
  rewrite (getEvents_eq db tableName rows since Hdb).
  rewrite (getEvents_eq _ tableName _ since (lookup_insert_eq db tableName _)).
  rewrite filter_absorb; [done |].
  intros r Hr. apply Z.ltb_lt in Hr. apply Z.leb_le. lia.
Qed.

Lemma getEvents_unaffected_by_older_purge_witness :
  @getEvents stubLib stubEngine {[ "t" := [row_at 2 "edge"; row_at 3 "new"] ]} "t"
     (time_Unix 1 0)
  = @getEvents stubLib stubEngine
      {[ "t" := [row_at 1 "old"; row_at 2 "edge"; row_at 3 "new"] ]} "t" (time_Unix 1 0).
Proof.
  apply (@getEvents_unaffected_by_older_purge stubLib stubEngine
           {[ "t" := [row_at 1 "old"; row_at 2 "edge"; row_at 3 "new"] ]}
           {[ "t" := [row_at 2 "edge"; row_at 3 "new"] ]} "t" 2 1 (time_Unix 1 0)).
  - vm_compute. reflexivity.
  - simpl. lia.
Defined.

(** ** The purge loop *)

Lemma time_Add_total (now : Time) (d : Duration) :
  wall_clock now ->
  wall_clock (time_Add now d) /\
  wall_sec (time_Add now d) * time_Second + wall_nsec (time_Add now d)
  = wall_sec now * time_Second + wall_nsec now + d.
Proof.
  unfold wall_clock, time_Add, time_Second. intros Hclock.
  pose proof (Z.quot_rem' d 1000000000) as Hd.
  assert (Hrem : -1000000000 < Z.rem d 1000000000 < 1000000000).
  { destruct (Z.le_ge_cases 0 d) as [Hpos | Hneg].
    - pose proof (Z.rem_bound_pos d 1000000000 Hpos ltac:(lia)). lia.
    - pose proof (Z.rem_opp_l d 1000000000 ltac:(lia)) as Hopp.
      pose proof (Z.rem_bound_pos (- d) 1000000000 ltac:(lia) ltac:(lia)). lia. }
  destruct (Z.leb_spec 1000000000 (wall_nsec now + Z.rem d 1000000000));
    [simpl; lia |].
  destruct (Z.ltb_spec (wall_nsec now + Z.rem d 1000000000) 0); simpl; lia.
Qed.

Lemma time_Add_horizon (t : table) (now : Time) :
  wall_clock now ->
  Unix (time_Add now (- t_retention t)) = horizon t now.
Proof.
  intros Hclock. destruct (time_Add_total now (- t_retention t) Hclock) as [Hc Htot].
  unfold horizon, Unix. unfold wall_clock in Hc.
  apply (Z.div_unique _ time_Second _ (wall_nsec (time_Add now (- t_retention t)))).
  - left. done.
  - lia.
Qed.

Lemma filter_filter {A} (f g : A -> bool) (l : list A) :
  List.filter f (List.filter g l) = List.filter (fun x => g x && f x) l.
Proof.
  induction l as [| x l IH]; simpl; [done |].
  destruct (g x); simpl; [destruct (f x) |]; by rewrite ?IH.
Qed.

Lemma runPurge_turn_eq (t : table) (db : DB) (now : Time) rows :
  wall_clock now -> db !! t_table t = Some rows ->
  runPurge_turn t db now =
  <[t_table t := List.filter (fun r => (horizon t now <=? timestamp r)%Z) rows]> db.
Proof.
  intros Hclock Hdb. unfold runPurge_turn, table_Purge.
  rewrite (purgeEvents_eq db _ rows _ Hdb). by rewrite time_Add_horizon.
Qed.

Lemma runPurge_turn_missing (t : table) (db : DB) (now : Time) :
  db !! t_table t = None -> runPurge_turn t db now = db.
Proof.
  intros Hdb. unfold runPurge_turn, table_Purge, purgeEvents. by rewrite Hdb.
Qed.

(** One turn of the purge loop at wall-clock time [now] keeps exactly the
    rows of the bucket whose timestamp is at or after the unix second of
    [now - retention] and changes nothing else; with a retention of [k]
    whole seconds that is the rows with timestamp >= unix(now) - k.  When
    the purge fails (the table is gone) the turn changes nothing. *)
Theorem runPurge_turn_retention_window (t : table) (db : DB) (now : Time) :
  wall_clock now ->
  (db !! t_table t = None -> runPurge_turn t db now = db) /\
  (forall rows,
     db !! t_table t = Some rows ->
     runPurge_turn t db now !! t_table t =
       Some (List.filter (fun r => (horizon t now <=? timestamp r)%Z) rows)) /\
  (forall other, other <> t_table t -> runPurge_turn t db now !! other = db !! other) /\
  (forall k, t_retention t = k * time_Second -> horizon t now = Unix now - k).
Proof.
  intros Hclock.
  split; [apply runPurge_turn_missing |].
  split.
  { intros rows Hdb. rewrite (runPurge_turn_eq t db now rows Hclock Hdb).
    by rewrite lookup_insert_eq. }
  split.
  { intros other Hne. destruct (db !! t_table t) as [rows |] eqn:Hdb.
    - rewrite (runPurge_turn_eq t db now rows Hclock Hdb). by rewrite lookup_insert_ne.
    - by rewrite runPurge_turn_missing. }
  intros k Hk. unfold horizon, Unix. rewrite Hk. unfold wall_clock in Hclock.
  symmetry. apply (Z.div_unique _ time_Second _ (wall_nsec now)); [by left | lia].
Qed.

Lemma runPurge_turn_retention_window_witness :
  runPurge_turn ten_second_bucket
    {[ "t" := [row_at 85 "old_event"; row_at 95 "new_event"] ]} (mkTime 100 500)
    !! "t"
  = Some (List.filter (fun r => (horizon ten_second_bucket (mkTime 100 500) <=? timestamp r)%Z)
                      [row_at 85 "old_event"; row_at 95 "new_event"]).
Proof.
  apply (proj1 (proj2 (runPurge_turn_retention_window ten_second_bucket
           {[ "t" := [row_at 85 "old_event"; row_at 95 "new_event"] ]} (mkTime 100 500)
           ltac:(unfold wall_clock, time_Second; simpl; lia)))).
  reflexivity.
Defined.

(** The purge loop as a whole, over the turns it makes before the bucket is
    closed: a row of the bucket is still there afterwards exactly when it was
    inside the retention window at every turn, in its stored order; the loop
    adds no row, touches no other table, and a bucket whose table is gone is
    left as it is, however many turns fail. *)
Theorem runPurge_keeps_rows_in_window (t : table) (turns : list Time) (db : DB) :
  Forall wall_clock turns ->
  (db !! t_table t = None -> runPurge t turns db = db) /\
  (forall rows,
     db !! t_table t = Some rows ->
     runPurge t turns db !! t_table t =
       Some (List.filter
               (fun r => forallb (fun now => (horizon t now <=? timestamp r)%Z) turns)
               rows)) /\
  (forall other, other <> t_table t -> runPurge t turns db !! other = db !! other).
Proof.
  intros Hclock. revert db.
  induction Hclock as [| now turns Hnow _ IH]; intros db.
  - simpl. split; [done |]. split; [| done].
    intros rows ->. f_equal. symmetry. apply filter_all.
    by apply Forall_forall.
  - unfold runPurge in *. simpl.
    destruct (IH (runPurge_turn t db now)) as (IHnone & IHsome & IHother).
    destruct (runPurge_turn_retention_window t db now Hnow)
      as (Hnone & Hsome & Hother & _).
    split; [| split].
    + intros Hdb. rewrite IHnone by (by rewrite (Hnone Hdb)). by apply Hnone.
    + intros rows Hdb. rewrite (IHsome _ (Hsome rows Hdb)). f_equal.
      apply filter_filter.
    + intros other Hne. rewrite (IHother other Hne). by apply Hother.
Qed.

Lemma runPurge_keeps_rows_in_window_witness :
  runPurge ten_second_bucket [mkTime 100 500; mkTime 102 500]
    {[ "t" := [row_at 85 "old_event"; row_at 91 "mid_event"; row_at 95 "new_event"] ]}
    !! "t"
  = Some [row_at 95 "new_event"].
Proof.
  assert (Hdb : ({[ "t" := [row_at 85 "old_event"; row_at 91 "mid_event";
                            row_at 95 "new_event"] ]} : DB) !! t_table ten_second_bucket
                = Some [row_at 85 "old_event"; row_at 91 "mid_event"; row_at 95 "new_event"])
    by reflexivity.
  eapply eq_trans.
  - exact (proj1 (proj2 (runPurge_keeps_rows_in_window ten_second_bucket
             [mkTime 100 500; mkTime 102 500] _
             ltac:(repeat constructor; unfold time_Second; simpl; lia))) _ Hdb).
  - vm_compute. reflexivity.
Defined.

(** ** Requesting buckets *)

Section Provisioning.
Context {lib : GoLib} {engine : SqlEngine}.

Lemma createTable_cases (db : DB) (tableName : string) :
  (ddl_accepts tableName = false /\ exists e, createTable db tableName = Err e) \/
  (ddl_accepts tableName = true /\ is_Some (db !! tableName) /\
   createTable db tableName = Ok db) \/
  (ddl_accepts tableName = true /\ db !! tableName = None /\
   createTable db tableName = Ok (<[tableName := []]> db)).
Proof.
  unfold createTable. destruct (ddl_accepts tableName); [| left; eauto].
  right. destruct (db !! tableName) as [rows |] eqn:Hdb; [left | right]; eauto.
Qed.

Lemma newTable_storage (w : Runtime) name r i :
  let res := newTable w name r i in
  (forall tbl rows, storage w !! tbl = Some rows -> storage (fst res) !! tbl = Some rows) /\
  (forall tbl, storage (fst res) !! tbl <> storage w !! tbl ->
     tbl = defaultTableName name /\
     storage w !! tbl = None /\ storage (fst res) !! tbl = Some []) /\
  (forall e, snd res = Err e -> fst res = w) /\
  (forall t, snd res = Ok t ->
     t = mkTable r i (defaultTableName name) /\
     is_Some (storage (fst res) !! defaultTableName name) /\
     (purgers (fst res) = purgers w \/ purgers (fst res) = t :: purgers w) /\
     (r <= time_Second -> purgers (fst res) = purgers w)) /\
  ((exists t, snd res = Ok t) <-> ddl_accepts (defaultTableName name) = true).
Proof.
  unfold newTable.
  destruct (createTable_cases (storage w) (defaultTableName name))
    as [(Hddl & e & ->) | [(Hddl & Hsome & ->) | (Hddl & Hnone & ->)]].
  - simpl. split; [done |]. split; [intros tbl Hne; by destruct Hne |].
    split; [done |]. split; [intros t [=] |].
    rewrite Hddl. split; [intros [t [=]] | done].
  - assert (Hpurgers :
      let res := if (time_Second <? r)%Z
                 then (mkRuntime (storage w)
                         (mkTable r i (defaultTableName name) :: purgers w),
                       Ok (mkTable r i (defaultTableName name)))
                 else (mkRuntime (storage w) (purgers w),
                       Ok (mkTable r i (defaultTableName name))) in
      storage (fst res) = storage w /\
      snd res = Ok (mkTable r i (defaultTableName name)) /\
      (purgers (fst res) = purgers w \/
       purgers (fst res) = mkTable r i (defaultTableName name) :: purgers w) /\
      (r <= time_Second -> purgers (fst res) = purgers w)).
    { destruct (Z.ltb_spec time_Second r); simpl; repeat split; auto. intros; lia. }
    cbv zeta in Hpurgers. destruct Hpurgers as (-> & -> & Hp & Hoff).
    split; [done |]. split; [intros tbl Hne; by destruct Hne |].
    split; [intros e [=] |]. split.
    { intros t [= <-]. split; [done |]. split; [exact Hsome |]. split; done. }
    split; [intros _; exact Hddl | intros _; eauto].
  - assert (Hpurgers :
      let res := if (time_Second <? r)%Z
                 then (mkRuntime (<[defaultTableName name := []]> (storage w))
                         (mkTable r i (defaultTableName name) :: purgers w),
                       Ok (mkTable r i (defaultTableName name)))
                 else (mkRuntime (<[defaultTableName name := []]> (storage w)) (purgers w),
                       Ok (mkTable r i (defaultTableName name))) in
      storage (fst res) = <[defaultTableName name := []]> (storage w) /\
      snd res = Ok (mkTable r i (defaultTableName name)) /\
      (purgers (fst res) = purgers w \/
       purgers (fst res) = mkTable r i (defaultTableName name) :: purgers w) /\
      (r <= time_Second -> purgers (fst res) = purgers w)).
    { destruct (Z.ltb_spec time_Second r); simpl; repeat split; auto. intros; lia. }
    cbv zeta in Hpurgers. destruct Hpurgers as (-> & -> & Hp & Hoff).
    split.
    { intros tbl rows Hrows. rewrite lookup_insert_ne; [done |]. congruence. }
    split.
    { intros tbl Hne. destruct (decide (tbl = defaultTableName name)) as [-> | Hother].
      - by rewrite lookup_insert_eq.
      - by rewrite lookup_insert_ne in Hne. }
    split; [intros e [=] |]. split.
    { intros t [= <-]. split; [done |]. split; [| split; done].
      rewrite lookup_insert_eq. eauto. }
    split; [intros _; exact Hddl | intros _; eauto].
Qed.
Lemma Bucket_as_newTable (d : database) (w : Runtime) name opts :
  exists d' r i,
    Bucket d w name opts = (d', fst (newTable w name r i), snd (newTable w name r i)).
Proof.
  unfold Bucket, applyOpts. destruct (disablePurge _).
  - exists (mkDatabase 0), 0, 0. cbn [retention].
    destruct (newTable w name 0 0) as [w1 r1]. reflexivity.
  - exists d, (retention d),
      (if (retention d ÷ 5 <? time_Second)%Z then time_Second else (retention d ÷ 5)%Z).
    destruct (newTable w name (retention d) _) as [w1 r1]. reflexivity.
Qed.
End Provisioning.

(** Requesting a bucket never loses data.  [createTable] writes its four
    statements by splicing the table name in as text, so this is stated for
    a name whose derived table name is one plain identifier (lower-case
    letters, digits and underscores), which the engine accepts or refuses
    as a whole: then every table keeps exactly the rows it had; the only
    table that can appear is the one derived from the requested name,
    empty, and only when it did not exist; a successful request leaves that
    table in place, and a failed one changes nothing.  For every name, a
    successful request hands out the derived table and starts at most its
    own purge task, and a failed one starts none; purge tasks already
    running are kept. *)
Theorem Bucket_keeps_stored_rows {lib : GoLib} {engine : SqlEngine}
    (d : database) (w : Runtime) (name : string) (opts : list OpOption) :
  let w' := snd (fst (Bucket d w name opts)) in
  let res := snd (Bucket d w name opts) in
  (forall t, res = Ok t ->
     table_Name t = defaultTableName name /\
     (purgers w' = purgers w \/ purgers w' = t :: purgers w)) /\
  (forall e, res = Err e -> purgers w' = purgers w) /\
  (tableIdent (defaultTableName name) = true ->
     (forall tbl rows, storage w !! tbl = Some rows -> storage w' !! tbl = Some rows) /\
     (forall tbl, storage w' !! tbl <> storage w !! tbl ->
        tbl = defaultTableName name /\
        storage w !! tbl = None /\ storage w' !! tbl = Some []) /\
     (forall e, res = Err e -> w' = w) /\
     (forall t, res = Ok t -> is_Some (storage w' !! table_Name t))).
Proof.
  destruct (Bucket_as_newTable d w name opts) as (d' & r & i & ->). simpl.
  destruct (newTable_storage w name r i) as (H1 & H2 & H3 & H4 & _).
  split.
  { intros t Ht. destruct (H4 t Ht) as (-> & _ & Hp & _). by split. }
  split; [intros e He; by rewrite (H3 e He) |].
  intros _. split; [exact H1 |]. split; [exact H2 |]. split; [exact H3 |].
  intros t Ht. by destruct (H4 t Ht) as (-> & Hs & _).
Qed.

(** [LoadBucketWithNoPurge] hands out a handle on the table that [Bucket]
    derives for the same name, with retention and purge interval zero, and
    it never starts a purge task, whatever the name and the retention of
    the store; the store's own settings are left as they were.  For a name
    whose derived table name is one plain identifier, every stored row is
    kept, a successful call leaves the table in place and a failed one
    changes nothing. *)
Theorem LoadBucketWithNoPurge_starts_no_purge {lib : GoLib} {engine : SqlEngine}
    (d : database) (w : Runtime) (name : string) :
  let d' := fst (fst (LoadBucketWithNoPurge d w name)) in
  let w' := snd (fst (LoadBucketWithNoPurge d w name)) in
  let res := snd (LoadBucketWithNoPurge d w name) in
  d' = d /\
  purgers w' = purgers w /\
  (forall t, res = Ok t -> t = mkTable 0 0 (defaultTableName name)) /\
  (tableIdent (defaultTableName name) = true ->
     (forall tbl rows, storage w !! tbl = Some rows -> storage w' !! tbl = Some rows) /\
     (forall e, res = Err e -> w' = w) /\
     (forall t, res = Ok t -> is_Some (storage w' !! table_Name t))).
Proof.
  unfold LoadBucketWithNoPurge.
  pose proof (newTable_storage w name 0 0) as Hnew.
  destruct (newTable w name 0 0) as [w1 r1] eqn:Hres. simpl in *.
  destruct Hnew as (H1 & H2 & H3 & H4 & _).
  split; [done |]. split.
  { destruct r1 as [t | e].
    - destruct (H4 t eq_refl) as (_ & _ & _ & Hoff). apply Hoff.
      unfold time_Second. lia.
    - by rewrite (H3 e eq_refl). }
  split; [intros t Ht; by destruct (H4 t Ht) as (-> & _) |].
  intros _. split; [exact H1 |]. split; [exact H3 |].
  intros t Ht. by destruct (H4 t Ht) as (-> & ? & _).
Qed.

(** ** What a probe is, for Find *)

Section ProbeKey.
Context {lib : GoLib}.

Lemma compareEvent_probe (e p1 p2 : Event) :
  entries (DeprecatedExtraInfo p1) = entries (DeprecatedExtraInfo p2) ->
  compareEvent e p1 = compareEvent e p2.
Proof.
  intros Heq. apply eq_true_iff_eq. rewrite !compareEvent_entries. by rewrite Heq.
Qed.

Lemma findEvent_loop_probe (rows : list Row) (p1 p2 : Event) :
  entries (DeprecatedExtraInfo p1) = entries (DeprecatedExtraInfo p2) ->
  findEvent_loop rows p1 = findEvent_loop rows p2.
Proof.
  intros Heq. induction rows as [| r rows IH]; simpl; [done |].
  destruct (scanRows r) as [e |]; [| done].
  by rewrite (compareEvent_probe e p1 p2 Heq), IH.
Qed.
End ProbeKey.

(** [Find] looks at a probe only through its unix second, name, type,
    message, suggested actions and the entries of its ExtraInfo: two probes
    that agree on these get the same answer on every bucket.  In particular
    the nanoseconds of the probe's time do not matter, nor does it matter
    whether an ExtraInfo without entries is nil or an empty map. *)
Theorem findEvent_probe_key {lib : GoLib}
    (db : DB) (tableName : string) (p1 p2 : Event) :
  Unix (EvTime p1) = Unix (EvTime p2) ->
  Name p1 = Name p2 ->
  Type_ p1 = Type_ p2 ->
  Message p1 = Message p2 ->
  DeprecatedSuggestedActions p1 = DeprecatedSuggestedActions p2 ->
  entries (DeprecatedExtraInfo p1) = entries (DeprecatedExtraInfo p2) ->
  findEvent db tableName p1 = findEvent db tableName p2.
Proof.
  intros Ht Hn Hty Hm Hsa Hx. unfold findEvent. rewrite Ht, Hn, Hty, Hm, Hsa.
  destruct (match DeprecatedSuggestedActions p2 with
            | Some sa => _
            | None => _
            end) as [conds | e]; [| done].
  destruct (query_where db tableName conds) as [rows | e]; [| done].
  by apply findEvent_loop_probe.
Qed.

Lemma findEvent_probe_key_witness :
  @findEvent stubLib {[ "t" := [row_extra 5 None] ]} "t" (event_extra (mkTime 5 999) None)
  = @findEvent stubLib {[ "t" := [row_extra 5 None] ]} "t"
      (event_extra (mkTime 5 0) (Some ∅)).
Proof.
  apply (@findEvent_probe_key stubLib {[ "t" := [row_extra 5 None] ]} "t"
           (event_extra (mkTime 5 999) None) (event_extra (mkTime 5 0) (Some ∅)));
    reflexivity.
Defined.

(** [Get] from a later time returns a part of what [Get] from an earlier
    time returns: when [Get] from [s1] succeeds and [s1] is not after [s2],
    [Get] from [s2] succeeds as well and every event it returns is among
    those returned from [s1]. *)
Theorem getEvents_later_since_returns_less {lib : GoLib} {engine : SqlEngine}
    (db : DB) (tableName : string) (rows : list Row) (s1 s2 : Time)
    (res1 : option (list Event)) :
  db !! tableName = Some rows ->
  Unix s1 <= Unix s2 ->
  getEvents db tableName s1 = Ok res1 ->
  exists res2,
    getEvents db tableName s2 = Ok res2 /\
    forall e, In e (default [] res2) -> In e (default [] res1).
Proof.
  intros Hdb Hle Hget1.
  rewrite (getEvents_eq db tableName rows s1 Hdb) in Hget1.
  rewrite (getEvents_eq db tableName rows s2 Hdb).
  set (sel1 := order_by_timestamp_desc
                 (List.filter (fun r => (Unix s1 <? timestamp r)%Z) rows)) in *.
  set (sel2 := order_by_timestamp_desc
                 (List.filter (fun r => (Unix s2 <? timestamp r)%Z) rows)).
  destruct (getEvents_loop sel1 []) as [ev1 |] eqn:Hloop1; [| done].
  apply getEvents_loop_sound in Hloop1 as (dec1 & -> & HF1). simpl in Hget1.
  assert (Hsub : forall r, In r sel2 -> In r sel1).
  { intros r Hr. apply query_since_rows in Hr as [Hr Hlt].
    apply query_since_rows. split; [done | lia]. }
  assert (Hdec2 : Forall (fun r => exists e, scanRows r = Ok e) sel2).
  { apply List.Forall_forall. intros r Hr.
    destruct (decoded_of_row sel1 dec1 r HF1 (Hsub r Hr)) as (e & _ & He). eauto. }
  destruct (getEvents_loop_ok sel2 [] Hdec2) as (dec2 & HF2 & ->). simpl.
  assert (Hin : forall e, In e dec2 -> In e dec1).
  { intros e He. destruct (decoded_from_row sel2 dec2 e HF2 He) as (r & Hr & Hscan).
    destruct (decoded_of_row sel1 dec1 r HF1 (Hsub r Hr)) as (e' & He' & Hscan').
    congruence. }
  assert (Hres1 : default [] res1 = dec1).
  { destruct dec1; simpl in Hget1; by injection Hget1 as <-. }
  rewrite Hres1.
  destruct dec2 as [| e2 dec2]; simpl; eexists; (split; [reflexivity |]); simpl.
  - done.
  - exact Hin.
Qed.

Lemma getEvents_later_since_returns_less_witness :
  exists res2,
    @getEvents stubLib stubEngine
       {[ "t" := [row_at 4 "edge"; row_at 7 "new"; row_at 6 "mid"] ]} "t" (time_Unix 6 0)
      = Ok res2 /\
    forall e, In e (default [] res2) ->
      In e [mkEvent (time_Unix 7 0) "new" "Info" "" None None;
            mkEvent (time_Unix 6 0) "mid" "Info" "" None None].
Proof.
  assert (Hdb : ({[ "t" := [row_at 4 "edge"; row_at 7 "new"; row_at 6 "mid"] ]} : DB)
                  !! "t"
                = Some [row_at 4 "edge"; row_at 7 "new"; row_at 6 "mid"])
    by reflexivity.
  apply (@getEvents_later_since_returns_less stubLib stubEngine _ "t" _
           (time_Unix 4 0) (time_Unix 6 0)
           (Some [mkEvent (time_Unix 7 0) "new" "Info" "" None None;
                  mkEvent (time_Unix 6 0) "mid" "Info" "" None None]) Hdb).
  - simpl. lia.
  - vm_compute. reflexivity.
Defined.

Lemma Bucket_keeps_stored_rows_witness :
  storage (snd (fst (@Bucket stubLib stubEngine (New (10 * second))
                       (mkRuntime {[ "components_cpu_events_v0_4_0" := [row_at 5 "kept"] ]} [])
                       "cpu" [])))
    !! "components_cpu_events_v0_4_0"
  = Some [row_at 5 "kept"].
Proof.
  apply (proj1 (proj2 (proj2 (@Bucket_keeps_stored_rows stubLib stubEngine (New (10 * second))
                  (mkRuntime {[ "components_cpu_events_v0_4_0" := [row_at 5 "kept"] ]} [])
                  "cpu" [])) eq_refl)).
  reflexivity.
Defined.

Lemma LoadBucketWithNoPurge_starts_no_purge_witness :
  storage (snd (fst (@LoadBucketWithNoPurge stubLib stubEngine (New (10 * second))
                       (mkRuntime {[ "components_cpu_events_v0_4_0" := [row_at 5 "kept"] ]} [])
                       "cpu")))
    !! "components_cpu_events_v0_4_0"
  = Some [row_at 5 "kept"] /\
  purgers (snd (fst (@LoadBucketWithNoPurge stubLib stubEngine (New (10 * second))
                       (mkRuntime {[ "components_cpu_events_v0_4_0" := [row_at 5 "kept"] ]} [])
                       "cpu")))
  = [].
Proof.
  pose proof (@LoadBucketWithNoPurge_starts_no_purge stubLib stubEngine
                (New (10 * second))
                (mkRuntime {[ "components_cpu_events_v0_4_0" := [row_at 5 "kept"] ]} [])
                "cpu") as (_ & Hpurgers & _ & Hstore).
  split; [| exact Hpurgers].
  apply (proj1 (Hstore eq_refl)). reflexivity.
Defined.

(** ** Table names *)

Section TableNames.

Lemma prefix_empty (s : string) : String.prefix "" s = true.
Proof. by destruct s. Qed.

Lemma replace_one_byte (a b : ascii) (s : string) :
  replace_from O (String a "") (String b "") s
  = mapBytes (fun c => if Ascii.eqb c a then b else c) s.
Proof.
  induction s as [| c s IH]; [done |].
  cbn [replace_from mapBytes String.prefix String.length Nat.sub].
  destruct (ascii_dec a c) as [-> | Hne].
  - rewrite prefix_empty, Ascii.eqb_refl. simpl. by rewrite IH.
  - assert (Ascii.eqb c a = false) as -> by (apply Ascii.eqb_neq; congruence).
    by rewrite IH.
Qed.

Lemma mapBytes_compose (f g : ascii -> ascii) (s : string) :
  mapBytes f (mapBytes g s) = mapBytes (fun c => f (g c)) s.
Proof. induction s as [| c s IH]; simpl; [done | by rewrite IH]. Qed.

Lemma mapBytes_ext (f g : ascii -> ascii) (s : string) :
  (forall c, f c = g c) -> mapBytes f s = mapBytes g s.
Proof. intros Hfg. induction s as [| c s IH]; simpl; [done | by rewrite Hfg, IH]. Qed.

Lemma lowerByte_underscore (c : ascii) :
  lowerByte c = "_"%char <-> c = "_"%char.
Proof.
  destruct c as [[] [] [] [] [] [] [] []]; vm_compute; split; congruence.
Qed.

Lemma prefix_collapse_lower (s : string) :
  String.prefix "__" (mapBytes lowerByte s) = String.prefix "__" s.
Proof.
  destruct s as [| c1 [| c2 rest]]; cbn [mapBytes String.prefix].
  - done.
  - destruct (ascii_dec "_" (lowerByte c1)), (ascii_dec "_" c1); done.
  - destruct (ascii_dec "_" (lowerByte c1)) as [H1 | H1], (ascii_dec "_" c1) as [H1' | H1'].
    + destruct (ascii_dec "_" (lowerByte c2)) as [H2 | H2],
               (ascii_dec "_" c2) as [H2' | H2']; rewrite ?prefix_empty; try done.
      * exfalso. apply H2'. symmetry. by apply lowerByte_underscore.
      * exfalso. apply H2. symmetry. by apply lowerByte_underscore.
    + exfalso. apply H1'. symmetry. by apply lowerByte_underscore.
    + exfalso. apply H1. symmetry. by apply lowerByte_underscore.
    + done.
Qed.

Lemma collapse_lower (k : nat) (s : string) :
  mapBytes lowerByte (replace_from k "__" "_" s)
  = replace_from k "__" "_" (mapBytes lowerByte s).
Proof.
  revert k. induction s as [| c s IH]; intros k; [done |].
  destruct k as [| k].
  - pose proof (prefix_collapse_lower (String c s)) as Hp.
    cbn [replace_from mapBytes] in *. rewrite Hp.
    destruct (String.prefix "__" (String c s)).
    + change (mapBytes lowerByte ("_" ++ replace_from (String.length "__" - 1) "__" "_" s))
        with (String "_" (mapBytes lowerByte (replace_from 1 "__" "_" s))).
      by rewrite IH.
    + cbn [mapBytes]. by rewrite IH.
  - simpl. apply IH.
Qed.

Lemma allASCII_mapBytes (f : ascii -> ascii) (s : string) :
  (forall c, isASCII c = true -> isASCII (f c) = true) ->
  allASCII s = true -> allASCII (mapBytes f s) = true.
Proof.
  intros Hf. induction s as [| c s IH]; simpl; [done |].
  rewrite !andb_true_iff. intros [Hc Hs]. split; [by apply Hf | by apply IH].
Qed.

Lemma allASCII_collapse (k : nat) (s : string) :
  allASCII s = true -> allASCII (replace_from k "__" "_" s) = true.
Proof.
  revert k. induction s as [| c s IH]; intros k Hall; [done |].
  cbn [allASCII] in Hall. apply andb_true_iff in Hall as [Hc Hs].
  destruct k as [| k]; cbn [replace_from]; [| by apply IH].
  destruct (String.prefix "__" (String c s)).
  - change (allASCII (replace_from (String.length "__" - 1) "__" "_" s) = true).
    by apply IH.
  - cbn [allASCII]. rewrite Hc. by apply IH.
Qed.

Lemma tableIdent_collapse (k : nat) (s : string) :
  tableIdent s = true -> tableIdent (replace_from k "__" "_" s) = true.
Proof.
  revert k. induction s as [| c s IH]; intros k Hall; [done |].
  cbn [tableIdent] in Hall. apply andb_true_iff in Hall as [Hc Hs].
  destruct k as [| k]; cbn [replace_from]; [| by apply IH].
  destruct (String.prefix "__" (String c s)).
  - change (tableIdent (replace_from (String.length "__" - 1) "__" "_" s) = true).
    by apply IH.
  - cbn [tableIdent]. rewrite Hc. by apply IH.
Qed.

Lemma tableIdent_app (a b : string) :
  tableIdent a = true -> tableIdent b = true -> tableIdent (a ++ b) = true.
Proof.
  intros Ha Hb. induction a as [| c a IH]; simpl in *; [done |].
  apply andb_true_iff in Ha as [Hc Ha]. by rewrite Hc, IH.
Qed.

Lemma normalizeByte_steps (c : ascii) :
  lowerByte ((fun c => if Ascii.eqb c "-" then "_"%char else c)
               ((fun c => if Ascii.eqb c " " then "_"%char else c) c))
  = normalizeByte c.
Proof. destruct c as [[] [] [] [] [] [] [] []]; reflexivity. Qed.

Lemma wordByte_normalize (c : ascii) :
  wordByte c = true -> tableByte (normalizeByte c) = true.
Proof. destruct c as [[] [] [] [] [] [] [] []]; vm_compute; congruence. Qed.

Lemma wordByte_ascii (c : ascii) : wordByte c = true -> isASCII c = true.
Proof. destruct c as [[] [] [] [] [] [] [] []]; vm_compute; congruence. Qed.

Lemma separator_ascii (sep : ascii) (c : ascii) :
  isASCII c = true ->
  isASCII (if Ascii.eqb c sep then "_"%char else c) = true.
Proof. intros Hc. by destruct (Ascii.eqb c sep). Qed.

Context {lib : GoLib}.

Lemma defaultTableName_normal_form (s : string) :
  allASCII s = true ->
  defaultTableName s
  = "components_" ++ replace_from O "__" "_" (normalizeName s) ++ "_events_" ++ schemaVersion.
Proof.
  intros Hascii. unfold defaultTableName, ReplaceAll, ToLower, normalizeName.
  rewrite !replace_one_byte.
  rewrite allASCII_collapse
    by (do 2 (apply allASCII_mapBytes; [apply separator_ascii |]); done).
  rewrite collapse_lower, !mapBytes_compose.
  by rewrite (mapBytes_ext _ normalizeByte _ normalizeByte_steps).
Qed.
End TableNames.

(** Colliding names, in general.  Two ASCII logical names that differ only
    in letter case, or in which of space, hyphen and underscore stands at a
    position, derive the same physical table name. *)
Theorem defaultTableName_same_when_normalized {lib : GoLib} (n1 n2 : string) :
  allASCII n1 = true -> allASCII n2 = true ->
  normalizeName n1 = normalizeName n2 ->
  defaultTableName n1 = defaultTableName n2.
Proof.
  intros H1 H2 Hnorm. rewrite !defaultTableName_normal_form by done. by rewrite Hnorm.
Qed.

Lemma defaultTableName_same_when_normalized_witness :
  @defaultTableName stubLib "Test Component-Name"
  = @defaultTableName stubLib "test_component name".
Proof.
  apply (@defaultTableName_same_when_normalized stubLib); reflexivity.
Defined.

(** Safe names.  A logical name made of ASCII letters, digits, spaces,
    hyphens and underscores derives a physical name made of lower-case
    letters, digits and underscores only: it is the fixed prefix, a middle
    part without space, hyphen or upper-case letter, and the schema-version
    suffix. *)
Theorem defaultTableName_is_identifier {lib : GoLib} (s : string) :
  wordName s = true ->
  exists middle,
    defaultTableName s = "components_" ++ middle ++ "_events_v0_4_0" /\
    tableIdent middle = true /\
    tableIdent (defaultTableName s) = true.
Proof.
  intros Hword.
  assert (Hascii : allASCII s = true).
  { induction s as [| c s IH]; simpl in *; [done |].
    apply andb_true_iff in Hword as [Hc Hs]. by rewrite (wordByte_ascii c Hc), IH. }
  assert (Hnorm : tableIdent (normalizeName s) = true).
  { unfold normalizeName. induction s as [| c s IH]; simpl in *; [done |].
    apply andb_true_iff in Hword as [Hc Hs]. apply andb_true_iff in Hascii as [_ Ha].
    by rewrite (wordByte_normalize c Hc), IH. }
  rewrite (defaultTableName_normal_form s Hascii).
  exists (replace_from O "__" "_" (normalizeName s)).
  split; [done |].
  split; [by apply tableIdent_collapse |].
  apply (tableIdent_app "components_"); [done |].
  apply tableIdent_app; [by apply tableIdent_collapse | done].
Qed.

Lemma defaultTableName_is_identifier_witness :
  exists middle,
    @defaultTableName stubLib "Test  Component--Name"
      = "components_" ++ middle ++ "_events_v0_4_0" /\
    tableIdent middle = true /\
    tableIdent (@defaultTableName stubLib "Test  Component--Name") = true.
Proof.
  apply (@defaultTableName_is_identifier stubLib "Test  Component--Name").
  reflexivity.
Defined.

(** * The infiniband component as a user of the bucket *)

Section IbstatCheck.
Context {deps : Infiniband.Deps} {lib : GoLib}.

Lemma findEvent_ok_table (db : DB) tableName probe res :
  findEvent db tableName probe = Ok res -> exists rows, db !! tableName = Some rows.
Proof.
  intros Hfind. destruct (db !! tableName) as [rows |] eqn:Hdb; [by eexists |].
  unfold findEvent, query_where in Hfind. rewrite Hdb in Hfind.
  destruct (match DeprecatedSuggestedActions probe with
            | Some sa => _
            | None => _
            end); done.
Qed.

Lemma findEvent_same_second (db : DB) tableName t1 t2 n ty m x sa :
  Unix t1 = Unix t2 ->
  findEvent db tableName (mkEvent t1 n ty m x sa)
  = findEvent db tableName (mkEvent t2 n ty m x sa).
Proof.
  intros Ht. unfold findEvent. cbn [EvTime Name Type_ Message DeprecatedSuggestedActions].
  rewrite Ht.
  destruct (match sa with Some s => _ | None => _ end) as [conds | e]; [| done].
  destruct (query_where db tableName conds) as [rows | e]; [| done].
  by apply findEvent_loop_probe.
Qed.

Lemma findEvent_none_decodable (db : DB) tableName rows probe :
  db !! tableName = Some rows ->
  findEvent db tableName probe = Ok None ->
  Forall (fun r => candidate probe r -> exists e, scanRows r = Ok e) rows.
Proof.
  intros Hdb Hfind.
  destruct (findEvent_eq db tableName rows probe Hdb
              (findEvent_serializable _ _ _ _ Hfind)) as (p & Hp & Heq).
  rewrite Heq in Hfind. apply findEvent_loop_none in Hfind.
  eapply Forall_impl; [exact Hfind |]. intros r Hr Hc.
  destruct (Hr (proj2 (Hp r) Hc)) as (e & He & _). eauto.
Qed.
End IbstatCheck.

(** What one [Check] writes.  [Check] records its result as the last data
    and either leaves the storage as it is or appends exactly one row to
    its own bucket: an "ibstat" warning at the unix second of the check,
    with the reason as message.  It writes only when the result is not
    healthy and [Find] reported no such event; a healthy result never
    writes, nor does a check without bucket. *)
Theorem Check_writes_at_most_one_event {deps : Infiniband.Deps} {lib : GoLib}
    (c : Infiniband.component) (now : Time) (db : DB) :
  let res := Infiniband.Check c now db in
  let db' := snd (fst res) in
  let d := snd res in
  Infiniband.lastData (fst (fst res)) = Some d /\
  Infiniband.ts d = now /\
  (db' = db \/
   exists bucket rows r,
     Infiniband.eventBucket c = Some bucket /\
     db !! t_table bucket = Some rows /\
     db' = <[t_table bucket := (rows ++ [r])%list]> db /\
     timestamp r = Unix now /\ name r = "ibstat" /\
     type r = Infiniband.EventTypeWarning /\
     message r = NULLIF (Infiniband.reason d) /\
     table_Find bucket db (Infiniband.ibstatEvent d) = Ok None) /\
  (Infiniband.health d = Infiniband.HealthStateTypeHealthy -> db' = db) /\
  (Infiniband.eventBucket c = None -> db' = db).
Proof.
  unfold Infiniband.Check.
  destruct (Infiniband.nvmlInstance c) as [nvml |]; [| simpl; auto 10].
  destruct (Infiniband.NVMLExists nvml); simpl; [| auto 10].
  destruct (Infiniband.getIbstatOutputFunc c) as [f |]; [| simpl; auto 10].
  destruct (f [Infiniband.IbstatCommand c]) as [out [e |]].
  { destruct (errors_Is e Infiniband.ErrNoIbstatCommand); simpl; auto 10. }
  destruct out as [o |]; [| simpl; auto 10].
  destruct (Infiniband.eventBucket c) as [bucket |] eqn:Hbucket; [| simpl; auto 10].
  destruct (Infiniband.evaluateIbstatOutputAgainstThresholds o _) as [r h].
  cbn [Infiniband.verdict Infiniband.health].
  destruct (String.eqb_spec h Infiniband.HealthStateTypeHealthy) as [Hh | Hh];
    [simpl; split; [done |]; split; [done |]; split; [by left |]; split; done |].
  destruct (table_Find bucket db _) as [[found |] | e] eqn:Hfind;
    [simpl; split; [done |]; split; [done |]; split; [by left |]; split; done | |
     simpl; split; [done |]; split; [done |]; split; [by left |]; split; done].
  destruct (table_Insert bucket db _) as [db1 | e] eqn:Hins;
    [| simpl; split; [done |]; split; [done |]; split; [by left |]; split; done].
  simpl. split; [done |]. split; [done |].
  destruct (findEvent_ok_table _ _ _ _ Hfind) as (rows & Hrows).
  destruct (insertEvent_row db db1 _ rows _ Hrows Hins) as (row & -> & Hts & Hn & Hty & Hm).
  split; [| split; [intros Hhealthy; by destruct Hh | done]].
  right. exists bucket, rows, row. by repeat split.
Qed.

Lemma Check_writes_at_most_one_event_witness :
  exists r,
    snd (fst (@Infiniband.Check stubDeps actionsLib onePortUp (mkTime 100 7)
                {[ "ib" := [] ]}))
    = {[ "ib" := [r] ]} /\
    timestamp r = 100 /\ name r = "ibstat" /\ message r = Some "not enough ports up".
Proof.
  destruct (proj1 (proj2 (proj2 (@Check_writes_at_most_one_event stubDeps actionsLib
              onePortUp (mkTime 100 7) {[ "ib" := [] ]}))))
    as [Hsame | (bucket & rows & r & Hb & Hrows & Hdb' & Hts & Hn & _ & Hm & _)].
  - exfalso. vm_compute in Hsame. discriminate Hsame.
  - injection Hb as <-. assert (rows = []) as -> by (vm_compute in Hrows; congruence).
    exists r. split; [exact Hdb' |]. split; [exact Hts |]. split; [exact Hn | exact Hm].
Defined.

Section IbstatCheckTwice.
Context {deps : Infiniband.Deps} {lib : GoLib}.

Lemma insertEvent_same_second (db : DB) tableName t1 t2 n ty m x sa :
  Unix t1 = Unix t2 ->
  insertEvent db tableName (mkEvent t1 n ty m x sa)
  = insertEvent db tableName (mkEvent t2 n ty m x sa).
Proof. intros Ht. unfold insertEvent. simpl. by rewrite Ht. Qed.

Lemma Check_lastData_unread (c : Infiniband.component) (db0 : DB) (d0 : Infiniband.Data)
    (now : Time) (db : DB) :
  snd (fst (Infiniband.Check (fst (fst (Infiniband.returns c db0 d0))) now db))
    = snd (fst (Infiniband.Check c now db)) /\
  snd (Infiniband.Check (fst (fst (Infiniband.returns c db0 d0))) now db)
    = snd (Infiniband.Check c now db).
Proof.
  unfold Infiniband.Check, Infiniband.returns. simpl.
  destruct (Infiniband.nvmlInstance c) as [nvml |]; [| done].
  destruct (Infiniband.NVMLExists nvml); simpl; [| done].
  destruct (Infiniband.getIbstatOutputFunc c) as [f |]; [| done].
  destruct (f [Infiniband.IbstatCommand c]) as [out [e |]].
  { by destruct (errors_Is e Infiniband.ErrNoIbstatCommand). }
  destruct out as [o |]; [| done].
  destruct (Infiniband.eventBucket c) as [bucket |]; [| done].
  destruct (Infiniband.evaluateIbstatOutputAgainstThresholds o _) as [r h]. simpl.
  destruct (String.eqb h Infiniband.HealthStateTypeHealthy); [done |].
  destruct (table_Find bucket db _) as [[found |] | e]; try done;
    by destruct (table_Insert bucket db _).
Qed.

Lemma Check_returns (c : Infiniband.component) (now : Time) (db : DB) :
  exists db' d, Infiniband.Check c now db = Infiniband.returns c db' d.
Proof.
  unfold Infiniband.Check.
  destruct (Infiniband.nvmlInstance c) as [nvml |]; [| by eexists _, _].
  destruct (Infiniband.NVMLExists nvml); simpl; [| by eexists _, _].
  destruct (Infiniband.getIbstatOutputFunc c) as [f |]; [| by eexists _, _].
  destruct (f [Infiniband.IbstatCommand c]) as [out [e |]].
  { destruct (errors_Is e Infiniband.ErrNoIbstatCommand); by eexists _, _. }
  destruct out as [o |]; [| by eexists _, _].
  destruct (Infiniband.eventBucket c) as [bucket |]; [| by eexists _, _].
  destruct (Infiniband.evaluateIbstatOutputAgainstThresholds o _) as [r h]. simpl.
  destruct (String.eqb h Infiniband.HealthStateTypeHealthy); [by eexists _, _ |].
  destruct (table_Find bucket db _) as [[found |] | e]; try by eexists _, _.
  destruct (table_Insert bucket db _); by eexists _, _.
Qed.

(** The same check made again on the component itself, within the second of
    the first one. *)
Lemma Check_repeated (c : Infiniband.component) (now now' : Time) (db : DB) :
  round_trips (mkEvent now "" "" "" None (Some Infiniband.ibstatActions)) ->
  Unix now' = Unix now ->
  snd (fst (Infiniband.Check c now' (snd (fst (Infiniband.Check c now db)))))
    = snd (fst (Infiniband.Check c now db)) /\
  Infiniband.reason (snd (Infiniband.Check c now' (snd (fst (Infiniband.Check c now db)))))
    = Infiniband.reason (snd (Infiniband.Check c now db)) /\
  Infiniband.health (snd (Infiniband.Check c now' (snd (fst (Infiniband.Check c now db)))))
    = Infiniband.health (snd (Infiniband.Check c now db)).
Proof.
  intros Hrt Hsec. unfold Infiniband.Check.
  destruct (Infiniband.nvmlInstance c) as [nvml |]; [| done].
  destruct (Infiniband.NVMLExists nvml); simpl; [| done].
  destruct (Infiniband.getIbstatOutputFunc c) as [f |]; [| done].
  destruct (f [Infiniband.IbstatCommand c]) as [out [e |]].
  { by destruct (errors_Is e Infiniband.ErrNoIbstatCommand). }
  destruct out as [o |]; [| done].
  destruct (Infiniband.eventBucket c) as [bucket |]; [| done].
  destruct (Infiniband.evaluateIbstatOutputAgainstThresholds o _) as [r h].
  cbv [Infiniband.verdict Infiniband.ibstatEvent table_Find table_Insert].
  cbn [Infiniband.health Infiniband.ts Infiniband.reason
       Infiniband.Data_IbstatOutput Infiniband.err].
  destruct (String.eqb h Infiniband.HealthStateTypeHealthy); [done |].
  set (tbl := t_table bucket).
  set (ev := mkEvent now "ibstat" Infiniband.EventTypeWarning r None
                     (Some Infiniband.ibstatActions)).
  set (ev' := mkEvent now' "ibstat" Infiniband.EventTypeWarning r None
                      (Some Infiniband.ibstatActions)).
  assert (Hfind' : forall db0, findEvent db0 tbl ev' = findEvent db0 tbl ev)
    by (intros db0; by apply findEvent_same_second).
  assert (Hins' : insertEvent db tbl ev' = insertEvent db tbl ev)
    by (by apply insertEvent_same_second).
  destruct (findEvent db tbl ev) as [[found |] | e] eqn:Hfind;
    cbn [fst snd Infiniband.returns].
  - rewrite Hfind', Hfind. done.
  - destruct (insertEvent db tbl ev) as [db1 | e] eqn:Hins;
      cbn [fst snd Infiniband.returns].
    + destruct (findEvent_ok_table _ _ _ _ Hfind) as (rows & Hrows).
      assert (Hrt' : round_trips ev).
      { destruct Hrt as [_ Hsa]. split; [intros m [=] | exact Hsa]. }
      destruct (insertEvent_then_findEvent db tbl rows ev Hrows Hrt'
                  (findEvent_none_decodable db tbl rows ev Hrows Hfind))
        as (row & e & Hins2 & Hfound & _).
      rewrite Hins in Hins2. injection Hins2 as ->.
      rewrite Hfind', Hfound. done.
    + rewrite Hfind', Hfind, Hins'. done.
  - rewrite Hfind', Hfind. done.
Qed.
End IbstatCheckTwice.

(** Checking twice stores once.  With a JSON library that reads back the
    suggested actions it writes, a second [Check] of the component within
    the same unix second as the first, with its collaborators answering as
    before, leaves the storage exactly as the first check left it, and
    reports the same reason and health. *)
Theorem Check_again_in_the_same_second {deps : Infiniband.Deps} {lib : GoLib}
    (c : Infiniband.component) (now now' : Time) (db : DB) :
  (exists js,
     json_Marshal_actions Infiniband.ibstatActions = Parsed js /\
     String.prefix "{" js = true /\
     json_Unmarshal_actions js = Parsed Infiniband.ibstatActions) ->
  Unix now' = Unix now ->
  let first := Infiniband.Check c now db in
  let second := Infiniband.Check (fst (fst first)) now' (snd (fst first)) in
  snd (fst second) = snd (fst first) /\
  Infiniband.reason (snd second) = Infiniband.reason (snd first) /\
  Infiniband.health (snd second) = Infiniband.health (snd first).
Proof.
  intros Hjson Hsec. cbv zeta.
  assert (Hrt : round_trips (mkEvent now "" "" "" None (Some Infiniband.ibstatActions))).
  { split; [intros m [=] | intros sa [= <-]; exact Hjson]. }
  destruct (Check_returns c now db) as (db1 & d1 & Hfirst).
  destruct (Check_repeated c now now' db Hrt Hsec) as (Hdb & Hreason & Hhealth).
  rewrite Hfirst in *. cbn [fst snd Infiniband.returns] in *.
  destruct (Check_lastData_unread c db1 d1 now' db1) as (Hsame_db & Hsame_d).
  cbn [fst snd Infiniband.returns] in *.
  rewrite Hsame_db, Hsame_d. done.
Qed.

Lemma Check_again_in_the_same_second_witness :
  let first := @Infiniband.Check stubDeps actionsLib onePortUp (mkTime 100 7)
                 {[ "ib" := [] ]} in
  snd (fst (@Infiniband.Check stubDeps actionsLib (fst (fst first)) (mkTime 100 900)
              (snd (fst first))))
  = snd (fst first).
Proof.
  refine (proj1 (@Check_again_in_the_same_second stubDeps actionsLib onePortUp
                   (mkTime 100 7) (mkTime 100 900) {[ "ib" := [] ]} _ eq_refl)).
  exists doc_actions. repeat split.
Defined.

Section IbstatEvents.
Context {deps : Infiniband.Deps} {lib : GoLib} {engine : SqlEngine}.

Lemma getEvents_holds_row (db : DB) tableName rows (since : Time) r e :
  db !! tableName = Some rows ->
  Forall (fun r => exists e, scanRows r = Ok e) rows ->
  In r rows -> Unix since < timestamp r -> scanRows r = Ok e ->
  exists events, getEvents db tableName since = Ok (Some events) /\ In e events.
Proof.
  intros Hdb Hdec Hin Hsince He.
  set (selected := order_by_timestamp_desc
         (List.filter (fun r => (Unix since <? timestamp r)%Z) rows)).
  assert (Hsel : In r selected) by (by apply query_since_rows).
  assert (Hseldec : Forall (fun r => exists e, scanRows r = Ok e) selected).
  { rewrite List.Forall_forall in *. intros x Hx.
    apply query_since_rows in Hx as [Hx _]. by apply Hdec. }
  destruct (getEvents_loop_ok selected [] Hseldec) as (events & HF & Hloop).
  destruct (decoded_of_row selected events r HF Hsel) as (e' & Hin' & He').
  assert (e' = e) by congruence. subst e'.
  exists events. split; [| done].
  rewrite (getEvents_eq db tableName _ since Hdb). fold selected.
  rewrite Hloop. simpl. by destruct events.
Qed.

Lemma findEvent_decodable (db : DB) tableName rows probe :
  db !! tableName = Some rows -> serializable probe ->
  Forall (fun r => exists e, scanRows r = Ok e) rows ->
  exists res, findEvent db tableName probe = Ok res.
Proof.
  intros Hdb Hser Hdec.
  destruct (findEvent_eq db tableName rows probe Hdb Hser) as (p & _ & ->).
  apply findEvent_loop_decodable.
  eapply Forall_impl; [exact Hdec |]. auto.
Qed.

Lemma findEvent_candidate (db : DB) tableName rows probe e :
  db !! tableName = Some rows ->
  findEvent db tableName probe = Ok (Some e) ->
  exists r, In r rows /\ candidate probe r /\ scanRows r = Ok e.
Proof.
  intros Hdb Hfind.
  destruct (findEvent_eq db tableName rows probe Hdb
              (findEvent_serializable _ _ _ _ Hfind)) as (p & Hp & Heq).
  rewrite Heq in Hfind. apply findEvent_loop_found in Hfind.
  destruct Hfind as (pre & r & post & -> & _ & Hpr & He & _).
  exists r. split; [apply in_or_app; right; by left |]. split; [by apply Hp | done].
Qed.

Lemma Check_timestamp (c : Infiniband.component) (now : Time) (db : DB) :
  Infiniband.ts (snd (Infiniband.Check c now db)) = now.
Proof.
  unfold Infiniband.Check.
  destruct (Infiniband.nvmlInstance c) as [nvml |]; [| done].
  destruct (Infiniband.NVMLExists nvml); simpl; [| done].
  destruct (Infiniband.getIbstatOutputFunc c) as [f |]; [| done].
  destruct (f [Infiniband.IbstatCommand c]) as [out [e |]].
  { by destruct (errors_Is e Infiniband.ErrNoIbstatCommand). }
  destruct out as [o |]; [| done].
  destruct (Infiniband.eventBucket c) as [bucket |]; [| done].
  destruct (Infiniband.evaluateIbstatOutputAgainstThresholds o _) as [r h]. simpl.
  destruct (String.eqb h Infiniband.HealthStateTypeHealthy); [done |].
  destruct (table_Find bucket db _) as [[found |] | e]; try done;
    by destruct (table_Insert bucket db _).
Qed.

(** After an unhealthy evaluation the bucket holds a decodable row that
    passes the SQL predicate of the event of the check. *)
Lemma Check_unhealthy_row (c : Infiniband.component) (now : Time) (db : DB) bucket rows :
  round_trips (mkEvent now "" "" "" None (Some Infiniband.ibstatActions)) ->
  Infiniband.eventBucket c = Some bucket ->
  db !! t_table bucket = Some rows ->
  Forall (fun r => exists e, scanRows r = Ok e) rows ->
  Infiniband.health (snd (Infiniband.Check c now db)) <> Infiniband.HealthStateTypeHealthy ->
  Infiniband.err (snd (Infiniband.Check c now db)) = None ->
  exists rows' r e,
    snd (fst (Infiniband.Check c now db)) !! t_table bucket = Some rows' /\
    Forall (fun r => exists e, scanRows r = Ok e) rows' /\
    In r rows' /\
    candidate (Infiniband.ibstatEvent (snd (Infiniband.Check c now db))) r /\
    scanRows r = Ok e.
Proof.
  intros Hrt Hbucket Hrows Hdec. unfold Infiniband.Check. rewrite Hbucket.
  destruct (Infiniband.nvmlInstance c) as [nvml |]; [| simpl; done].
  destruct (Infiniband.NVMLExists nvml); simpl; [| done].
  destruct (Infiniband.getIbstatOutputFunc c) as [f |]; [| simpl; done].
  destruct (f [Infiniband.IbstatCommand c]) as [out [e |]].
  { destruct (errors_Is e Infiniband.ErrNoIbstatCommand); simpl; done. }
  destruct out as [o |]; [| simpl; done].
  destruct (Infiniband.evaluateIbstatOutputAgainstThresholds o _) as [r h].
  cbv [Infiniband.verdict Infiniband.ibstatEvent table_Find table_Insert].
  cbn [Infiniband.health Infiniband.ts Infiniband.reason
       Infiniband.Data_IbstatOutput Infiniband.err].
  destruct (String.eqb_spec h Infiniband.HealthStateTypeHealthy) as [Hh | Hh];
    [simpl; done |].
  set (tbl := t_table bucket) in *.
  set (ev := mkEvent now "ibstat" Infiniband.EventTypeWarning r None
                     (Some Infiniband.ibstatActions)).
  assert (Hrt' : round_trips ev).
  { destruct Hrt as [_ Hsa]. split; [intros m [=] | exact Hsa]. }
  destruct (insertEvent_round_trip db tbl rows ev Hrows Hrt') as (row & Hins & Hscan & Hc).
  destruct (findEvent_decodable db tbl rows ev Hrows (candidate_serializable ev row Hc) Hdec)
    as ([found |] & Hfind); rewrite Hfind.
  - cbn [fst snd Infiniband.returns Infiniband.health Infiniband.err Infiniband.reason
         Infiniband.ts]. intros _ _.
    destruct (findEvent_candidate db tbl rows ev found Hrows Hfind) as (r0 & Hin & Hc0 & He0).
    exists rows, r0, found. by repeat (split; [done |]).
  - rewrite Hins.
    cbn [fst snd Infiniband.returns Infiniband.health Infiniband.err Infiniband.reason
         Infiniband.ts]. intros _ _.
    exists (rows ++ [row])%list, row, (as_stored ev).
    split; [by rewrite lookup_insert_eq |].
    split; [apply Forall_app; split; [done |]; constructor; [by eexists | constructor] |].
    split; [apply in_or_app; right; by left |]. done.
Qed.
End IbstatEvents.

(** An unhealthy evaluation is on record.  On a bucket whose rows decode,
    and with a JSON library that reads back the suggested actions it writes,
    a [Check] that ends unhealthy after ibstat itself ran without error is
    followed by an [Events] answer, from any time before the second of the
    check, that contains an "ibstat" warning of that second carrying the
    suggested actions of the check and, when the reason is not empty, the
    reason as its message: the check found such an event or stored one. *)
Theorem Check_unhealthy_is_on_record
    {deps : Infiniband.Deps} {lib : GoLib} {engine : SqlEngine}
    (c : Infiniband.component) (now since : Time) (db : DB)
    (bucket : table) (rows : list Row) :
  (exists js,
     json_Marshal_actions Infiniband.ibstatActions = Parsed js /\
     String.prefix "{" js = true /\
     json_Unmarshal_actions js = Parsed Infiniband.ibstatActions) ->
  Infiniband.eventBucket c = Some bucket ->
  db !! t_table bucket = Some rows ->
  Forall (fun r => exists e, scanRows r = Ok e) rows ->
  Unix since < Unix now ->
  let res := Infiniband.Check c now db in
  let d := snd res in
  Infiniband.health d <> Infiniband.HealthStateTypeHealthy ->
  Infiniband.err d = None ->
  exists events e,
    Infiniband.Events (fst (fst res)) (snd (fst res)) since = Ok (Some events) /\
    In e events /\
    Name e = "ibstat" /\
    Type_ e = Infiniband.EventTypeWarning /\
    Unix (EvTime e) = Unix now /\
    DeprecatedSuggestedActions e = Some Infiniband.ibstatActions /\
    (Infiniband.reason d <> "" -> Message e = Infiniband.reason d).
Proof.
  intros Hjson Hbucket Hrows Hdec Hsince res d Hhealth Herr. subst res d.
  assert (Hrt : round_trips (mkEvent now "" "" "" None (Some Infiniband.ibstatActions))).
  { split; [intros m [=] | intros sa [= <-]; exact Hjson]. }
  destruct (Check_unhealthy_row c now db bucket rows Hrt Hbucket Hrows Hdec Hhealth Herr)
    as (rows' & r & e & Hrows' & Hdec' & Hin & Hc & He).
  pose proof (Check_timestamp c now db) as Hts.
  destruct Hc as (Ht & Hn & Hty & Hm & Hsa).
  cbn [Infiniband.ibstatEvent EvTime Name Type_ Message DeprecatedSuggestedActions] in *.
  rewrite Hts in Ht.
  destruct (getEvents_holds_row _ (t_table bucket) rows' since r e Hrows' Hdec' Hin
              ltac:(lia) He) as (events & Hget & Hine).
  exists events, e.
  split.
  { destruct (Check_returns c now db) as (db1 & d1 & Hret). rewrite Hret in *.
    unfold Infiniband.Events. cbn [fst snd Infiniband.returns Infiniband.eventBucket] in *.
    rewrite Hbucket. exact Hget. }
  split; [exact Hine |].
  destruct (scanRows_fields r e He) as (Hte & Hne & Htye & Hme).
  split; [congruence |]. split; [congruence |].
  split; [rewrite Hte; simpl; exact Ht |].
  split.
  - destruct (Hsa _ eq_refl) as (js & Hjs & Hcol).
    destruct Hjson as (js' & Hjs' & Hpre & Hun).
    assert (js' = js) by congruence. subst js'.
    unfold scanRows in He. rewrite Hcol, (unmarshalIfValid_object _ js Hpre), Hun in He.
    destruct (unmarshalIfValid json_Unmarshal_map (extra_info r)); [| done].
    by injection He as <-.
  - intros Hne'. rewrite Hme, (Hm Hne'). done.
Qed.

Lemma Check_unhealthy_is_on_record_witness :
  let res := @Infiniband.Check stubDeps actionsLib onePortUp (mkTime 100 7)
               {[ "ib" := [] ]} in
  exists events e,
    @Infiniband.Events stubDeps actionsLib stubEngine (fst (fst res)) (snd (fst res))
      (time_Unix 99 0) = Ok (Some events) /\
    In e events /\ Name e = "ibstat" /\ Message e = "not enough ports up".
Proof.
  assert (Hdb : ({[ "ib" := [] ]} : DB) !! "ib" = Some []) by reflexivity.
  assert (Hjson : exists js,
             @json_Marshal_actions actionsLib (@Infiniband.ibstatActions stubDeps)
               = Parsed js /\
             String.prefix "{" js = true /\
             @json_Unmarshal_actions actionsLib js
               = Parsed (@Infiniband.ibstatActions stubDeps))
    by (exists doc_actions; repeat split).
  assert (Hsince : Unix (time_Unix 99 0) < Unix (mkTime 100 7)) by (simpl; lia).
  destruct (@Check_unhealthy_is_on_record stubDeps actionsLib stubEngine onePortUp
              (mkTime 100 7) (time_Unix 99 0) {[ "ib" := [] ]} (mkTable 0 0 "ib") []
              Hjson eq_refl Hdb (List.Forall_nil _) Hsince
              ltac:(vm_compute; discriminate) eq_refl)
    as (events & e & Hev & Hin & Hn & _ & _ & _ & Hm).
  exists events, e. split; [exact Hev |]. split; [exact Hin |]. split; [exact Hn |].
  apply Hm. vm_compute. discriminate.
Defined.

(** * Probes that leave fields open *)

Section PartialProbe.
Context {lib : GoLib}.

Lemma candidate_partial (ev probe : Event) (r : Row) :
  Unix (EvTime probe) = Unix (EvTime ev) ->
  Name probe = Name ev ->
  Type_ probe = Type_ ev ->
  Message probe = "" \/ Message probe = Message ev ->
  DeprecatedSuggestedActions probe = None \/
    DeprecatedSuggestedActions probe = DeprecatedSuggestedActions ev ->
  candidate ev r -> candidate probe r.
Proof.
  intros Ht Hn Hty Hm Hsa (Hrt & Hrn & Hrty & Hrm & Hrsa).
  split; [congruence |]. split; [congruence |]. split; [congruence |]. split.
  - intros Hne. destruct Hm as [Hm | Hm]; [done |]. rewrite Hm in *. by apply Hrm.
  - intros sa Hp. destruct Hsa as [Hsa | Hsa]; [congruence |].
    apply Hrsa. congruence.
Qed.

Lemma insertEvent_then_partial_probe
    (db : DB) (tableName : string) (rows : list Row) (ev probe : Event) (r : Row) :
  scanRows r = Ok (as_stored ev) ->
  candidate probe r ->
  entries (DeprecatedExtraInfo probe) = entries (DeprecatedExtraInfo ev) ->
  Forall (fun r => candidate probe r -> exists e, scanRows r = Ok e) rows ->
  exists r0 e,
    In r0 (rows ++ [r])%list /\ candidate probe r0 /\ scanRows r0 = Ok e /\
    findEvent (<[tableName := (rows ++ [r])%list]> db) tableName probe = Ok (Some e) /\
    extraInfoEqual e probe.
Proof.
  intros Hscan Hc Hx Hdec.
  set (db' := <[tableName := (rows ++ [r])%list]> db).
  assert (Hdb' : db' !! tableName = Some (rows ++ [r])%list)
    by (unfold db'; by rewrite lookup_insert_eq).
  destruct (findEvent_eq db' tableName _ probe Hdb' (candidate_serializable probe r Hc))
    as (p & Hp & Hfind).
  assert (Hdec' : Forall (fun r => p r = true -> exists e, scanRows r = Ok e)
                    (rows ++ [r])%list).
  { apply Forall_app. split.
    - eapply Forall_impl; [exact Hdec |]. intros x Hx' Hpx. apply Hx'. by apply Hp.
    - constructor; [| constructor]. intros _. by eexists. }
  destruct (findEvent_loop_decodable p _ probe Hdec') as ([e0 |] & Hloop).
  - pose proof Hloop as Hfound. apply findEvent_loop_found in Hfound.
    destruct Hfound as (pre & r0 & post & Heq & _ & Hpr0 & He0 & Hcmp).
    exists r0, e0. split; [rewrite Heq; apply in_or_app; right; by left |].
    split; [by apply Hp |]. split; [done |].
    split; [by rewrite Hfind | by apply compareEvent_spec].
  - exfalso. apply findEvent_loop_none in Hloop.
    apply Forall_app in Hloop as [_ Hlast]. inversion Hlast as [| ? ? Hr _]; subst.
    destruct (Hr (proj2 (Hp r) Hc)) as (e & He & Hcmp).
    assert (e = as_stored ev) by congruence. subst e.
    rewrite (proj2 (compareEvent_entries (as_stored ev) probe)) in Hcmp; [done |].
    by rewrite Hx.
Qed.
End PartialProbe.

(** A probe may leave the message empty and the suggested actions nil.
    After [Insert] of an event, [Find] with a probe of the same unix second,
    name and type and the same ExtraInfo entries, whose message is empty or
    that of the event and whose suggested actions are nil or those of the
    event, returns an event, never nil: an empty message and nil suggested
    actions in the probe match whatever is stored.  The event returned has
    the probe's second, name and type and an equal ExtraInfo. *)
Theorem findEvent_open_fields_match {lib : GoLib}
    (db : DB) (tableName : string) (rows : list Row) (ev probe : Event) :
  db !! tableName = Some rows ->
  round_trips ev ->
  Unix (EvTime probe) = Unix (EvTime ev) ->
  Name probe = Name ev ->
  Type_ probe = Type_ ev ->
  Message probe = "" \/ Message probe = Message ev ->
  DeprecatedSuggestedActions probe = None \/
    DeprecatedSuggestedActions probe = DeprecatedSuggestedActions ev ->
  entries (DeprecatedExtraInfo probe) = entries (DeprecatedExtraInfo ev) ->
  Forall (fun r => candidate probe r -> exists e, scanRows r = Ok e) rows ->
  exists db' e,
    insertEvent db tableName ev = Ok db' /\
    findEvent db' tableName probe = Ok (Some e) /\
    extraInfoEqual e probe /\
    Unix (EvTime e) = Unix (EvTime probe) /\ Name e = Name probe /\ Type_ e = Type_ probe.
Proof.
  intros Hdb Hrt Ht Hn Hty Hm Hsa Hx Hdec.
  destruct (insertEvent_round_trip db tableName rows ev Hdb Hrt) as (r & Hins & Hscan & Hc).
  pose proof (candidate_partial ev probe r Ht Hn Hty Hm Hsa Hc) as Hcp.
  destruct (insertEvent_then_partial_probe db tableName rows ev probe r Hscan Hcp Hx Hdec)
    as (r0 & e & _ & (Hr0t & Hr0n & Hr0ty & _) & He & Hfind & Heq).
  exists (<[tableName := (rows ++ [r])%list]> db), e.
  split; [exact Hins |]. split; [exact Hfind |]. split; [exact Heq |].
  destruct (scanRows_fields r0 e He) as (-> & -> & -> & _).
  split; [simpl; exact Hr0t |]. split; [exact Hr0n | exact Hr0ty].
Qed.

Lemma findEvent_open_fields_match_witness :
  exists (db' : DB) e,
    @insertEvent stubLib {[ "t" := [] ]} "t" same_second_a = Ok db' /\
    @findEvent stubLib db' "t" (mkEvent (mkTime 5 900) "gpu" "Warning" "" None None)
      = Ok (Some e).
Proof.
  assert (Hdb : ({[ "t" := [] ]} : DB) !! "t" = Some []) by reflexivity.
  assert (Hrt : @round_trips stubLib same_second_a).
  { split; intros x Hx; discriminate Hx. }
  destruct (@findEvent_open_fields_match stubLib _ "t" _ same_second_a
              (mkEvent (mkTime 5 900) "gpu" "Warning" "" None None)
              Hdb Hrt eq_refl eq_refl eq_refl (or_introl eq_refl) (or_introl eq_refl)
              eq_refl (List.Forall_nil _))
    as (db' & e & Hins & Hfind & _).
  exists db', e. split; [exact Hins | exact Hfind].
Defined.

(** * The health verdict of the infiniband check *)

(** The health that [Check] reports is Healthy or Unhealthy, and it does
    not depend on the event store or on the time of the check: a failing
    [Find] or [Insert] changes the reason of a result that was unhealthy
    already, never the health.  When neither a port count nor a rate is
    expected and ibstat ran without error, the result is healthy and
    nothing is stored. *)
Theorem Check_health_ignores_store {deps : Infiniband.Deps} {lib : GoLib}
    (c : Infiniband.component) (now now' : Time) (db db' : DB) :
  let d := snd (Infiniband.Check c now db) in
  Infiniband.health (snd (Infiniband.Check c now' db')) = Infiniband.health d /\
  (Infiniband.health d = Infiniband.HealthStateTypeHealthy \/
   Infiniband.health d = Infiniband.HealthStateTypeUnhealthy) /\
  (Infiniband.AtLeastPorts (Infiniband.getThresholdsFunc c tt) <= 0 ->
   Infiniband.AtLeastRate (Infiniband.getThresholdsFunc c tt) <= 0 ->
   Infiniband.err d = None ->
   Infiniband.health d = Infiniband.HealthStateTypeHealthy /\
   snd (fst (Infiniband.Check c now db)) = db).
Proof.
  unfold Infiniband.Check.
  destruct (Infiniband.nvmlInstance c) as [nvml |]; [| simpl; auto].
  destruct (Infiniband.NVMLExists nvml); simpl; [| auto].
  destruct (Infiniband.getIbstatOutputFunc c) as [f |]; [| simpl; auto].
  destruct (f [Infiniband.IbstatCommand c]) as [out [e |]].
  { destruct (errors_Is e Infiniband.ErrNoIbstatCommand); simpl;
      (split; [done |]); (split; [auto |]); done. }
  destruct out as [o |]; [| simpl; auto].
  destruct (Infiniband.eventBucket c) as [bucket |]; [| simpl; auto].
  unfold Infiniband.evaluateIbstatOutputAgainstThresholds.
  destruct (Z.leb_spec (Infiniband.AtLeastPorts (Infiniband.getThresholdsFunc c tt)) 0)
    as [Hp | Hp];
    destruct (Z.leb_spec (Infiniband.AtLeastRate (Infiniband.getThresholdsFunc c tt)) 0)
      as [Hr | Hr]; cbn [andb];
    try (destruct (Infiniband.CheckPortsAndRate o _ _) as [failure |]);
    cbn [Infiniband.verdict Infiniband.health];
    rewrite ?String.eqb_refl; try (simpl; split; [done |]; split; [auto |]; intros; lia);
    try (simpl; auto; fail);
    (destruct (String.eqb Infiniband.HealthStateTypeUnhealthy
                          Infiniband.HealthStateTypeHealthy);
     [simpl; split; [done |]; split; [auto |]; intros; lia |]);
    (destruct (table_Find bucket db _) as [[found |] | e1];
     [| destruct (table_Insert bucket db _) |]);
    (destruct (table_Find bucket db' _) as [[found' |] | e2];
     [| destruct (table_Insert bucket db' _) |]);
    simpl; (split; [done |]); (split; [auto |]); intros; lia.
Qed.

Lemma Check_health_ignores_store_witness :
  @Infiniband.health stubDeps
    (snd (@Infiniband.Check stubDeps actionsLib onePortUp (mkTime 200 0) ∅))
  = @Infiniband.health stubDeps
      (snd (@Infiniband.Check stubDeps actionsLib onePortUp (mkTime 100 7)
              {[ "ib" := [] ]})) /\
  snd (fst (@Infiniband.Check stubDeps actionsLib noExpectation (mkTime 100 7)
              {[ "ib" := [] ]}))
  = {[ "ib" := [] ]}.
Proof.
  split.
  - exact (proj1 (@Check_health_ignores_store stubDeps actionsLib onePortUp
                    (mkTime 100 7) (mkTime 200 0) {[ "ib" := [] ]} ∅)).
  - refine (proj2 (proj2 (proj2 (@Check_health_ignores_store stubDeps actionsLib
                    noExpectation (mkTime 100 7) (mkTime 100 7)
                    {[ "ib" := [] ]} {[ "ib" := [] ]})) _ _ _)).
    + simpl. lia.
    + simpl. lia.
    + reflexivity.
Defined.

(** * What the component reports *)

(** [LastHealthStates] always answers with exactly one state, named after
    the component.  Before the first check it is healthy with the reason
    [no data yet]; after a [Check] it carries the health and the reason of
    that check, whichever way the check returned, and as error the text of
    the ibstat error, empty when there was none. *)
Theorem LastHealthStates_after_Check {deps : Infiniband.Deps} {lib : GoLib}
    (c : Infiniband.component) (now : Time) (db : DB) :
  let res := Infiniband.Check c now db in
  let d := snd res in
  (exists st,
     Infiniband.LastHealthStates c = [st] /\
     Infiniband.State_Name st = Infiniband.ComponentName /\
     (Infiniband.lastData c = None ->
      Infiniband.State_Health st = Infiniband.HealthStateTypeHealthy /\
      Infiniband.State_Reason st = "no data yet")) /\
  (exists st,
     Infiniband.LastHealthStates (fst (fst res)) = [st] /\
     Infiniband.State_Name st = Infiniband.ComponentName /\
     Infiniband.State_Health st = Infiniband.health d /\
     Infiniband.State_Reason st = Infiniband.reason d /\
     Infiniband.State_Error st =
       match Infiniband.err d with
       | Some e => Infiniband.error_Error e
       | None => ""
       end).
Proof.
  cbv zeta. split.
  - unfold Infiniband.LastHealthStates, Infiniband.getLastHealthStates.
    destruct (Infiniband.lastData c) as [d0 |]; eexists; (split; [reflexivity |]);
      (split; [reflexivity |]); [done | by intros _].
  - destruct (Check_returns c now db) as (db1 & d1 & ->).
    cbn [fst snd Infiniband.returns]. unfold Infiniband.LastHealthStates.
    cbn [Infiniband.lastData Infiniband.getLastHealthStates].
    eexists. split; [reflexivity |]. by repeat split.
Qed.

Lemma LastHealthStates_after_Check_witness :
  exists st,
    @Infiniband.LastHealthStates stubDeps
      (fst (fst (@Infiniband.Check stubDeps actionsLib onePortUp (mkTime 100 7)
                   {[ "ib" := [] ]}))) = [st] /\
    Infiniband.State_Health st = "Unhealthy" /\
    Infiniband.State_Reason st = "not enough ports up".
Proof.
  destruct (proj2 (@LastHealthStates_after_Check stubDeps actionsLib onePortUp
                     (mkTime 100 7) {[ "ib" := [] ]}))
    as (st & Hst & _ & Hh & Hr & _).
  exists st. split; [exact Hst |]. split; [exact Hh | exact Hr].
Defined.

(** * The message column, written and read back *)

Section MessageReadBack.
Context {lib : GoLib} {engine : SqlEngine}.

Lemma scanRows_empty_message (r : Row) x y :
  unmarshalIfValid json_Unmarshal_map (extra_info r) = Ok x ->
  unmarshalIfValid json_Unmarshal_actions (suggested_actions r) = Ok y ->
  message r = None \/ message r = Some "" ->
  scanRows r = Ok (mkEvent (time_Unix (timestamp r) 0) (name r) (type r) "" x y).
Proof.
  intros Hx Hy Hm. unfold scanRows. rewrite Hx, Hy.
  by destruct Hm as [-> | ->].
Qed.

Lemma lastEvent_newest_appended (db : DB) tableName rows r e :
  Forall (fun r' => timestamp r' < timestamp r) rows ->
  scanRows r = Ok e ->
  lastEvent (<[tableName := (rows ++ [r])%list]> db) tableName = Ok (Some e).
Proof.
  intros Hold He.
  rewrite (lastEvent_eq _ tableName (rows ++ [r])%list) by (by rewrite lookup_insert_eq).
  destruct (head (order_by_timestamp_desc (rows ++ [r])%list)) as [top |] eqn:Hhd.
  - destruct (newest_row_first _ top Hhd) as [Htop Hmax].
    apply in_app_or in Htop as [Htop | [<- | []]]; [| by rewrite He].
    rewrite List.Forall_forall in Hold. specialize (Hold top Htop).
    assert (Hr : timestamp r <= timestamp top)
      by (apply Hmax, in_or_app; right; by left).
    lia.
  - exfalso. assert (Hnil : (rows ++ [r])%list = []).
    { apply order_nil_iff. by destruct (order_by_timestamp_desc (rows ++ [r])%list). }
    by destruct rows.
Qed.

Lemma insert_same_row (db : DB) tableName (rows : list Row) r r' :
  <[tableName := (rows ++ [r])%list]> db = <[tableName := (rows ++ [r'])%list]> db ->
  r = r'.
Proof.
  intros Heq. apply (f_equal (fun m : DB => m !! tableName)) in Heq.
  rewrite !lookup_insert_eq in Heq. injection Heq as Heq.
  apply app_inv_head in Heq. by injection Heq.
Qed.
End MessageReadBack.

(** C9. An event with an empty message is written with SQL NULL in the
    message column ([NULLIF(?, '')]).  A row whose message is NULL, or the
    empty string, and whose payload columns decode is read as an event with
    the empty message, the same event in both cases.  Written and read
    back: when the JSON library reads back the payloads it writes and the
    rows of the table decode, [Insert] appends a row that decodes to the
    inserted event with its message unchanged; [Get] from before the event
    returns that event, [Find] returns it when it found nothing before the
    insert, and [Latest] returns it when it is newer than the rows already
    stored.  Every event that [Get], [Find] or [Latest] returns is the
    decoding of a row of the table. *)
Theorem empty_message_stored_as_null {lib : GoLib} {engine : SqlEngine}
    (db : DB) (tableName : string) (rows : list Row) (ev : Event) :
  db !! tableName = Some rows ->
  (marshalable ev -> exists db', insertEvent db tableName ev = Ok db') /\
  (forall db',
     insertEvent db tableName ev = Ok db' ->
     exists r,
       db' !! tableName = Some (rows ++ [r])%list /\
       (Message ev = "" -> message r = None) /\
       (forall e, scanRows r = Ok e -> Message e = Message ev)) /\
  (forall r x y,
     unmarshalIfValid json_Unmarshal_map (extra_info r) = Ok x ->
     unmarshalIfValid json_Unmarshal_actions (suggested_actions r) = Ok y ->
     message r = None \/ message r = Some "" ->
     scanRows r = Ok (mkEvent (time_Unix (timestamp r) 0) (name r) (type r) "" x y)) /\
  (forall r e,
     scanRows r = Ok e -> message r = None \/ message r = Some "" ->
     Message e = "") /\
  (forall ts n t extra actions,
     scanRows (mkRow ts n t None extra actions) =
     scanRows (mkRow ts n t (Some "") extra actions)) /\
  (round_trips ev ->
   Forall (fun r => exists e, scanRows r = Ok e) rows ->
   exists db' r,
     insertEvent db tableName ev = Ok db' /\
     db' !! tableName = Some (rows ++ [r])%list /\
     message r = NULLIF (Message ev) /\
     scanRows r = Ok (as_stored ev) /\
     Message (as_stored ev) = Message ev /\
     (forall since,
        Unix since < Unix (EvTime ev) ->
        exists events,
          getEvents db' tableName since = Ok (Some events) /\
          In (as_stored ev) events) /\
     (findEvent db tableName ev = Ok None ->
      findEvent db' tableName ev = Ok (Some (as_stored ev))) /\
     (Forall (fun r' => timestamp r' < Unix (EvTime ev)) rows ->
      lastEvent db' tableName = Ok (Some (as_stored ev)))) /\
  (forall since events e,
     getEvents db tableName since = Ok (Some events) -> In e events ->
     exists r, In r rows /\ scanRows r = Ok e) /\
  (forall probe e,
     findEvent db tableName probe = Ok (Some e) ->
     exists r, In r rows /\ scanRows r = Ok e) /\
  (forall e,
     lastEvent db tableName = Ok (Some e) ->
     exists r, In r rows /\ scanRows r = Ok e).
Proof.
  intros Hdb.
  split; [by apply (insertEvent_succeeds db tableName rows) |].
  split.
  { intros db' Hins.
    destruct (insertEvent_row db db' tableName rows ev Hdb Hins)
      as (r & -> & _ & _ & _ & Hmsg).
    exists r. split; [by rewrite lookup_insert_eq |]. split.
    - intros Hempty. rewrite Hmsg, Hempty. reflexivity.
    - intros e He. rewrite (scanRows_message r e He), Hmsg.
      apply NULLIF_round_trip. }
  split; [intros r x y; apply scanRows_empty_message |].
  split.
  { intros r e He Hnull. rewrite (scanRows_message r e He).
    by destruct Hnull as [-> | ->]. }
  split; [reflexivity |].
  split.
  { intros Hrt Hdec.
    destruct (insertEvent_round_trip db tableName rows ev Hdb Hrt) as (r & Hins & Hscan & Hc).
    set (db' := <[tableName := (rows ++ [r])%list]> db) in *.
    assert (Hdb' : db' !! tableName = Some (rows ++ [r])%list)
      by (unfold db'; by rewrite lookup_insert_eq).
    destruct (insertEvent_row db db' tableName rows ev Hdb Hins)
      as (r0 & Hsame & _ & _ & _ & Hmsg).
    apply insert_same_row in Hsame. subst r0.
    exists db', r.
    split; [exact Hins |]. split; [exact Hdb' |]. split; [exact Hmsg |].
    split; [exact Hscan |]. split; [reflexivity |].
    split.
    { intros since Hsince.
      apply (getEvents_holds_row db' tableName (rows ++ [r])%list since r); try done.
      - apply Forall_app. split; [done |]. constructor; [by eexists | constructor].
      - apply in_or_app. right. by left.
      - destruct Hc as (-> & _). exact Hsince. }
    split.
    { intros Hnone.
      assert (Hcand : Forall (fun r => candidate ev r -> exists e, scanRows r = Ok e) rows)
        by (eapply Forall_impl; [exact Hdec |]; auto).
      destruct (insertEvent_then_findEvent db tableName rows ev Hdb Hrt Hcand)
        as (r1 & e & Hins1 & Hfind & _ & _ & _ & _ & Hnew).
      rewrite Hins in Hins1. injection Hins1 as Hsame.
      apply insert_same_row in Hsame. subst r1.
      fold db' in Hfind. by rewrite Hfind, (Hnew Hnone). }
    intros Hold. apply lastEvent_newest_appended; [| exact Hscan].
    destruct Hc as (-> & _). exact Hold. }
  split; [intros since events e; by apply getEvents_from_rows |].
  split; [intros probe e; by apply findEvent_from_rows |].
  intros e. by apply lastEvent_from_rows.
Qed.

Lemma empty_message_stored_as_null_witness :
  exists (db' : DB) r,
    @insertEvent stubLib {[ "t" := [row_at 3 "older"] ]} "t"
       (mkEvent (mkTime 5 250) "gpu" "Warning" "" None None) = Ok db' /\
    db' !! "t" = Some [row_at 3 "older"; r] /\
    message r = None /\
    @scanRows stubLib r = Ok (mkEvent (time_Unix 5 0) "gpu" "Warning" "" None None) /\
    (exists events,
       @getEvents stubLib stubEngine db' "t" (time_Unix 4 0) = Ok (Some events) /\
       In (mkEvent (time_Unix 5 0) "gpu" "Warning" "" None None) events) /\
    @findEvent stubLib db' "t" (mkEvent (mkTime 5 250) "gpu" "Warning" "" None None)
      = Ok (Some (mkEvent (time_Unix 5 0) "gpu" "Warning" "" None None)) /\
    @lastEvent stubLib stubEngine db' "t"
      = Ok (Some (mkEvent (time_Unix 5 0) "gpu" "Warning" "" None None)).
Proof.
  assert (Hdb : ({[ "t" := [row_at 3 "older"] ]} : DB) !! "t" = Some [row_at 3 "older"])
    by reflexivity.
  assert (Hrt : @round_trips stubLib (mkEvent (mkTime 5 250) "gpu" "Warning" "" None None)).
  { split; intros x Hx; discriminate Hx. }
  assert (Hdec : Forall (fun r => exists e, @scanRows stubLib r = Ok e) [row_at 3 "older"]).
  { constructor; [| constructor]. eexists. reflexivity. }
  destruct (proj1 (proj2 (proj2 (proj2 (proj2 (proj2
              (@empty_message_stored_as_null stubLib stubEngine _ "t" _
                 (mkEvent (mkTime 5 250) "gpu" "Warning" "" None None) Hdb))))))
              Hrt Hdec)
    as (db' & r & Hins & Hrows & Hmsg & Hscan & _ & Hget & Hfind & Hlast).
  exists db', r.
  split; [exact Hins |]. split; [exact Hrows |]. split; [exact Hmsg |].
  split; [exact Hscan |].
  split; [apply (Hget (time_Unix 4 0)); simpl; lia |].
  split; [apply Hfind; reflexivity |].
  apply Hlast. constructor; [simpl; lia | constructor].
Defined.
